(** * Quantum circuit simulator (app.py): a shallow embedding

    The program is a Streamlit script.  It owns a table of gate matrices
    ([GATE_MATRICES]), two entries of the session state ([num_qubits] and
    [circuit_data]), a slider, a reset button, a gate palette, the
    "Execute Circuit" handler and the helper [place_gate].  The simulation
    itself is delegated to Qiskit ([QuantumCircuit], [Aer], [execute]),
    which is an external library: its state-vector semantics is modelled
    below in the section "Qiskit", with qubit 0 as the least significant
    bit of a basis index.

    Numbers: NumPy's and Qiskit's complex doubles are modelled by exact
    complex numbers over Rocq's reals, [np.sqrt], [np.exp] and [np.pi] by
    [sqrt], [exp]/[cos]/[sin] and [PI].  Rounding is outside the model:
    an equation between amplitudes is one of exact arithmetic, and says
    nothing on how rounding errors add up over a long circuit.  Python
    integers that hold qubit counts and qubit indices are naturals. *)

From Stdlib Require Import Reals Lra Lia List String Ascii Arith Bool.
From Stdlib Require Import Permutation FinFun.
Import ListNotations.
Local Open Scope R_scope.

(* ================================================================= *)
(** ** Complex numbers *)

Definition C : Type := (R * R)%type.

Definition RtoC (x : R) : C := (x, 0).
Definition Czero : C := RtoC 0.
Definition Cone : C := RtoC 1.
(** Python's [1j]. *)
Definition Ci : C := (0, 1).

Definition Cadd (a b : C) : C := (fst a + fst b, snd a + snd b).
Definition Csub (a b : C) : C := (fst a - fst b, snd a - snd b).
Definition Copp (a : C) : C := (- fst a, - snd a).
Definition Cmul (a b : C) : C :=
  (fst a * fst b - snd a * snd b, fst a * snd b + snd a * fst b).
Definition Cconj (a : C) : C := (fst a, - snd a).
(** A complex number divided by a real one. *)
Definition Cdivr (a : C) (r : R) : C := (fst a / r, snd a / r).
(** A complex number multiplied by a real one. *)
Definition Cscale (r : R) (a : C) : C := (r * fst a, r * snd a).
(** [np.exp] on a complex argument. *)
Definition Cexp (a : C) : C := (exp (fst a) * cos (snd a), exp (fst a) * sin (snd a)).
(** Squared magnitude. *)
Definition Cnorm2 (a : C) : R := fst a * fst a + snd a * snd a.

(** Two amplitudes are within [tol] of each other. *)
Definition Cclose (tol : R) (a b : C) : Prop := Cnorm2 (Csub a b) <= tol * tol.

(** The tolerance of the specification, 1e-9. *)
Definition tolerance : R := / 1000000000.

(* ================================================================= *)
(** ** NumPy arrays *)

(** A two-dimensional array, row by row. *)
Definition Matrix : Type := list (list C).

(** [m / r] for a real scalar [r]. *)
Definition mat_div (m : Matrix) (r : R) : Matrix := map (map (fun z => Cdivr z r)) m.
(** [r * m] for a real scalar [r]. *)
Definition mat_scale (r : R) (m : Matrix) : Matrix := map (map (Cscale r)) m.

Definition entry (m : Matrix) (r c : nat) : C := nth c (nth r m []) Czero.

Definition Csum (l : list C) : C := fold_right Cadd Czero l.
Definition dot (u v : list C) : C := Csum (map (fun p => Cmul (fst p) (snd p)) (combine u v)).

(** Column [j] of a matrix. *)
Definition column (m : Matrix) (j : nat) : list C := map (fun row => nth j row Czero) m.
Definition ncols (m : Matrix) : nat := List.length (nth 0 m []).

(** [m.T] *)
Definition transpose (m : Matrix) : Matrix := map (column m) (seq 0 (ncols m)).
(** [m.conj().T] *)
Definition dagger (m : Matrix) : Matrix := map (map Cconj) (transpose m).
(** [a @ b] *)
Definition matmul (a b : Matrix) : Matrix :=
  map (fun row => map (fun j => dot row (column b j)) (seq 0 (ncols b))) a.
(** [m @ v] for a vector [v]. *)
Definition matvec (m : Matrix) (v : list C) : list C := map (fun row => dot row v) m.

(** [np.eye(n)] *)
Definition identity (n : nat) : Matrix :=
  map (fun i => map (fun j => if Nat.eqb i j then Cone else Czero) (seq 0 n)) (seq 0 n).

(** A 2x2 matrix is unitary: [U @ U.conj().T] and [U.conj().T @ U] are
    the identity. *)
Definition unitary (U : Matrix) : Prop :=
  matmul U (dagger U) = identity 2 /\ matmul (dagger U) U = identity 2.

(** Sum of squared magnitudes of a vector. *)
Definition Rsum (l : list R) : R := fold_right Rplus 0 l.
Definition norm2 (v : list C) : R := Rsum (map Cnorm2 v).

Definition normalized (v : list C) : Prop := Rabs (norm2 v - 1) <= tolerance.

(* ================================================================= *)
(** ** The gate table (app.py, lines 9-18) *)

(** One value of the table; the key ['is_multi_qubit'] is present for
    CNOT only. *)
Record GateInfo := {
  name : string;
  symbol : string;
  matrix : option Matrix;
  is_multi_qubit : option bool
}.

Definition GATE_MATRICES : list (string * GateInfo) :=
  [ ("X"%string,
     {| name := "Pauli-X"; symbol := "X";
        matrix := Some [[RtoC 0; RtoC 1]; [RtoC 1; RtoC 0]];
        is_multi_qubit := None |});
    ("Y"%string,
     {| name := "Pauli-Y"; symbol := "Y";
        matrix := Some [[RtoC 0; Copp Ci]; [Ci; RtoC 0]];
        is_multi_qubit := None |});
    ("Z"%string,
     {| name := "Pauli-Z"; symbol := "Z";
        matrix := Some [[RtoC 1; RtoC 0]; [RtoC 0; RtoC (-1)]];
        is_multi_qubit := None |});
    ("H"%string,
     {| name := "Hadamard"; symbol := "H";
        matrix := Some (mat_div [[RtoC 1; RtoC 1]; [RtoC 1; RtoC (-1)]] (sqrt 2));
        is_multi_qubit := None |});
    ("S"%string,
     {| name := "S Gate"; symbol := "S";
        matrix := Some [[RtoC 1; RtoC 0]; [RtoC 0; Ci]];
        is_multi_qubit := None |});
    ("T"%string,
     {| name := "T Gate"; symbol := "T";
        matrix := Some [[RtoC 1; RtoC 0];
                        [RtoC 0; Cexp (Cdivr (Cmul Ci (RtoC PI)) 4)]];
        is_multi_qubit := None |});
    ("I"%string,
     {| name := "Identity"; symbol := "I";
        matrix := Some [[RtoC 1; RtoC 0]; [RtoC 0; RtoC 1]];
        is_multi_qubit := None |});
    ("CNOT"%string,
     {| name := "CNOT"; symbol := "CNOT";
        matrix := None;
        is_multi_qubit := Some true |}) ].

(** [d[k]] on a dictionary kept in insertion order. *)
Fixpoint dict_get {A : Type} (k : string) (d : list (string * A)) : option A :=
  match d with
  | [] => None
  | (k', a) :: rest => if String.eqb k k' then Some a else dict_get k rest
  end.

(** [GATE_MATRICES[kind]['matrix']], [None] also when the key is absent. *)
Definition gate_matrix (lib : list (string * GateInfo)) (kind : string) : option Matrix :=
  match dict_get kind lib with
  | Some info => matrix info
  | None => None
  end.

(** The single-qubit gate kinds of the specification. *)
Definition single_qubit_kinds : list string :=
  ["I"; "X"; "Y"; "Z"; "H"; "S"; "T"]%string.

(** The matrices as the specification writes them (section 4.1), for the
    comparison with the table of the program. *)
Definition spec_matrixFor (kind : string) : option Matrix :=
  if String.eqb kind "I" then Some [[RtoC 1; RtoC 0]; [RtoC 0; RtoC 1]]
  else if String.eqb kind "X" then Some [[RtoC 0; RtoC 1]; [RtoC 1; RtoC 0]]
  else if String.eqb kind "Y" then Some [[RtoC 0; (0, -1)]; [(0, 1); RtoC 0]]
  else if String.eqb kind "Z" then Some [[RtoC 1; RtoC 0]; [RtoC 0; RtoC (-1)]]
  else if String.eqb kind "H" then
    Some (mat_scale (1 / sqrt 2) [[RtoC 1; RtoC 1]; [RtoC 1; RtoC (-1)]])
  else if String.eqb kind "S" then Some [[RtoC 1; RtoC 0]; [RtoC 0; (0, 1)]]
  else if String.eqb kind "T" then
    Some [[RtoC 1; RtoC 0]; [RtoC 0; (cos (PI / 4), sin (PI / 4))]]
  else None.

(* ================================================================= *)
(** ** Python results *)

Inductive exn := CircuitError | KeyError | AttributeError | StreamlitAPIException.

Inductive PyResult (A : Type) :=
| Returned (a : A)
| Raised (e : exn).
Arguments Returned {A} a.
Arguments Raised {A} e.

Definition bind {A B : Type} (r : PyResult A) (k : A -> PyResult B) : PyResult B :=
  match r with
  | Returned a => k a
  | Raised e => Raised e
  end.

(* ================================================================= *)
(** ** Qiskit: circuits and the state-vector simulator *)

Module Qiskit.

(** The matrices of Qiskit's standard gates. *)
Definition XGate : Matrix := [[RtoC 0; RtoC 1]; [RtoC 1; RtoC 0]].
Definition YGate : Matrix := [[RtoC 0; Copp Ci]; [Ci; RtoC 0]].
Definition ZGate : Matrix := [[RtoC 1; RtoC 0]; [RtoC 0; RtoC (-1)]].
Definition HGate : Matrix := mat_scale (1 / sqrt 2) [[RtoC 1; RtoC 1]; [RtoC 1; RtoC (-1)]].
Definition SGate : Matrix := [[RtoC 1; RtoC 0]; [RtoC 0; Ci]].
Definition TGate : Matrix :=
  [[RtoC 1; RtoC 0]; [RtoC 0; Cdivr (Cadd (RtoC 1) Ci) (sqrt 2)]].
Definition IGate : Matrix := [[RtoC 1; RtoC 0]; [RtoC 0; RtoC 1]].

Inductive Instruction :=
| Gate1 (U : Matrix) (q : nat)
| CXGate (control target : nat).

Record QuantumCircuit := {
  qc_num_qubits : nat;
  qc_data : list Instruction
}.

(** [QuantumCircuit(n)] *)
Definition new_circuit (n : nat) : QuantumCircuit :=
  {| qc_num_qubits := n; qc_data := [] |}.

(** A single-qubit gate method of a circuit: the index is checked, then
    the instruction is appended. *)
Definition append1 (U : Matrix) (q : nat) (qc : QuantumCircuit) : PyResult QuantumCircuit :=
  if (q <? qc_num_qubits qc)%nat
  then Returned {| qc_num_qubits := qc_num_qubits qc; qc_data := qc_data qc ++ [Gate1 U q] |}
  else Raised CircuitError.

(** [qc.cx(control, target)]: both indices are checked and must differ. *)
Definition cx (control target : nat) (qc : QuantumCircuit) : PyResult QuantumCircuit :=
  if ((control <? qc_num_qubits qc) && (target <? qc_num_qubits qc)
      && negb (control =? target))%nat
  then Returned {| qc_num_qubits := qc_num_qubits qc;
                   qc_data := qc_data qc ++ [CXGate control target] |}
  else Raised CircuitError.

(** [getattr(qc, attr)] for the method names the gate table can produce.
    The other attributes of a circuit ([sdg], [sx], [id], ...) are not
    modelled: every other name stands as an [AttributeError] here, so a
    statement about the handler covers the gate types of the table. *)
Definition method (attr : string) : option (nat -> QuantumCircuit -> PyResult QuantumCircuit) :=
  if String.eqb attr "x" then Some (append1 XGate)
  else if String.eqb attr "y" then Some (append1 YGate)
  else if String.eqb attr "z" then Some (append1 ZGate)
  else if String.eqb attr "h" then Some (append1 HGate)
  else if String.eqb attr "s" then Some (append1 SGate)
  else if String.eqb attr "t" then Some (append1 TGate)
  else if String.eqb attr "i" then Some (append1 IGate)
  else None.

(** Amplitude at basis index [i]. *)
Definition amp (v : list C) (i : nat) : C := nth i v Czero.

(** The index that differs from [i] in bit [q] only: [i ^ (1 << q)]. *)
Definition partner (q i : nat) : nat := Nat.lxor i (2 ^ q).

(** The all-zero basis state on [n] qubits. *)
Definition zero_state (n : nat) : list C := Cone :: repeat Czero (2 ^ n - 1).

(** A 2x2 matrix on qubit [q]: the amplitudes at [i] and [partner q i]
    are combined, the row chosen by bit [q] of [i]. *)
Definition apply_gate (U : Matrix) (q : nat) (v : list C) : list C :=
  map (fun i =>
         if Nat.testbit i q
         then Cadd (Cmul (entry U 1 0) (amp v (partner q i))) (Cmul (entry U 1 1) (amp v i))
         else Cadd (Cmul (entry U 0 0) (amp v i)) (Cmul (entry U 0 1) (amp v (partner q i))))
      (seq 0 (List.length v)).

(** CNOT: where the control bit is 1 the target bit is flipped. *)
Definition apply_cx (control target : nat) (v : list C) : list C :=
  map (fun i => if Nat.testbit i control then amp v (partner target i) else amp v i)
      (seq 0 (List.length v)).

Definition apply_instruction (v : list C) (ins : Instruction) : list C :=
  match ins with
  | Gate1 U q => apply_gate U q v
  | CXGate c t => apply_cx c t v
  end.

Definition run_instructions (l : list Instruction) (v : list C) : list C :=
  fold_left apply_instruction l v.

(** [execute(qc, backend).result().get_statevector()] on the
    state-vector simulator. *)
Definition get_statevector (qc : QuantumCircuit) : list C :=
  run_instructions (qc_data qc) (zero_state (qc_num_qubits qc)).

End Qiskit.

(* ================================================================= *)
(** ** The application *)

(** One entry of [circuit_data]: the keys ['type'], ['qubit'] and, for
    CNOT, ['target']. *)
Record Placement := {
  gate_type : string;
  qubit : nat;
  target : option nat
}.

(** The session state; a key that is absent is [None]. *)
Record SessionState := {
  num_qubits : option nat;
  circuit_data : option (list Placement);
  selected_gate : option string
}.

(** The module global [GATE_MATRICES] and the session state. *)
Record AppState := {
  gate_library : list (string * GateInfo);
  session_state : SessionState
}.

Definition empty_session : SessionState :=
  {| num_qubits := None; circuit_data := None; selected_gate := None |}.

Definition initial_state : AppState :=
  {| gate_library := []; session_state := empty_session |}.

(** [str.lower], on ASCII. *)
Definition lower_ascii (c : ascii) : ascii :=
  let n := nat_of_ascii c in
  if ((65 <=? n) && (n <=? 90))%nat then ascii_of_nat (n + 32) else c.

Fixpoint lower (s : string) : string :=
  match s with
  | EmptyString => EmptyString
  | String c rest => String (lower_ascii c) (lower rest)
  end.

(** One turn of the loop of lines 76-83. *)
Definition apply_placement (gate : Placement) (qc : Qiskit.QuantumCircuit)
  : PyResult Qiskit.QuantumCircuit :=
  if String.eqb (gate_type gate) "CNOT"
  then match target gate with
       | Some t => Qiskit.cx (qubit gate) t qc
       | None => Raised KeyError
       end
  else match Qiskit.method (lower (gate_type gate)) with
       | Some m => m (qubit gate) qc
       | None => Raised AttributeError
       end.

(** The loop of lines 76-83. *)
Fixpoint apply_gates (cd : list Placement) (qc : Qiskit.QuantumCircuit)
  : PyResult Qiskit.QuantumCircuit :=
  match cd with
  | [] => Returned qc
  | gate :: rest => bind (apply_placement gate qc) (apply_gates rest)
  end.

Inductive ExecOutcome :=
| Warning (msg : string)
| Failed (e : exn)
| Success (statevector : list C).

(** The body of the "Execute Circuit" handler (lines 69-97). *)
Definition execute_circuit (n : nat) (cd : list Placement) : ExecOutcome :=
  match cd with
  | [] => Warning "Please add some gates to the circuit first!"
  | _ :: _ =>
      match apply_gates cd (Qiskit.new_circuit n) with
      | Returned qc => Success (Qiskit.get_statevector qc)
      | Raised e => Failed e
      end
  end.

(** [place_gate] (lines 104-106): the body is [pass]. *)
Definition place_gate (qubit time : nat) (gate_type : string) (st : AppState)
  : PyResult unit * AppState :=
  (Returned tt, st).

(** The body of the "Reset Circuit" handler before the rerun (line 41). *)
Definition reset_circuit (st : AppState) : AppState :=
  {| gate_library := gate_library st;
     session_state :=
       {| num_qubits := num_qubits (session_state st);
          circuit_data := Some [];
          selected_gate := selected_gate (session_state st) |} |}.

Definition in_range (lo hi c : nat) : bool := ((lo <=? c) && (c <=? hi))%nat.

(** A position of the slider widget: the widget offers the values from
    [lo] to [hi] only. *)
Record SliderPos (lo hi : nat) := {
  pos : nat;
  pos_ok : in_range lo hi pos = true
}.
Arguments pos {lo hi} s.
Arguments pos_ok {lo hi} s.

(** [st.slider(label, lo, hi, value)]: the position the user chose, the
    default [value] when the widget was not touched; a default outside
    the range is refused. *)
Definition slider (lo hi value : nat) (chosen : option (SliderPos lo hi)) : PyResult nat :=
  match chosen with
  | Some p => Returned (pos p)
  | None => if in_range lo hi value then Returned value else Raised StreamlitAPIException
  end.

(** At most one button is pressed in a run of the script. *)
Inductive Click :=
| NoClick
| ClickReset
| ClickPalette (i : nat)
| ClickExecute.

Record UserInput := {
  slider_choice : option (SliderPos 1 8);
  clicked : Click
}.

(** [enumerate] *)
Definition enumerate {A : Type} (l : list A) : list (nat * A) := combine (seq 0 (List.length l)) l.

(** The palette loop (lines 47-51). *)
Definition palette (lib : list (string * GateInfo)) (c : Click) (sel : option string)
  : option string :=
  fold_left (fun sel item =>
               match c with
               | ClickPalette i => if (i =? fst item)%nat then Some (fst (snd item)) else sel
               | _ => sel
               end)
            (enumerate lib) sel.

(** How one pass over the script ends. *)
Inductive PassEnd :=
| Rerun
| Aborted (e : exn)
| Finished (out : option ExecOutcome).

(** One pass over the script, top to bottom. *)
Definition script_pass (st : AppState) (inp : UserInput) : AppState * PassEnd :=
  let lib := GATE_MATRICES in
  let ss := session_state st in
  (* lines 29-32 *)
  let n0 := match num_qubits ss with Some n => n | None => 2%nat end in
  let cd0 := match circuit_data ss with Some cd => cd | None => [] end in
  let sel0 := selected_gate ss in
  (* lines 36-38 *)
  match slider 1 8 n0 (slider_choice inp) with
  | Raised e =>
      ({| gate_library := lib;
          session_state := {| num_qubits := Some n0; circuit_data := Some cd0;
                              selected_gate := sel0 |} |}, Aborted e)
  | Returned n1 =>
      let st1 := {| gate_library := lib;
                    session_state := {| num_qubits := Some n1; circuit_data := Some cd0;
                                        selected_gate := sel0 |} |} in
      match clicked inp with
      | ClickReset => (reset_circuit st1, Rerun)   (* lines 40-42 *)
      | c =>
          let sel1 := palette lib c sel0 in
          let st2 := {| gate_library := lib;
                        session_state := {| num_qubits := Some n1; circuit_data := Some cd0;
                                            selected_gate := sel1 |} |} in
          match c with
          | ClickExecute =>
              match execute_circuit n1 cd0 with
              | Failed e => (st2, Aborted e)
              | out => (st2, Finished (Some out))
              end
          | _ => (st2, Finished None)
          end
      end
  end.

(** A run of the script: [st.experimental_rerun()] starts one more pass,
    in which no button is pressed. *)
Definition run_script (st : AppState) (inp : UserInput) : AppState * PassEnd :=
  match script_pass st inp with
  | (st', Rerun) => script_pass st' {| slider_choice := slider_choice inp; clicked := NoClick |}
  | r => r
  end.

(** A session: the script runs once per interaction. *)
Definition run_session (inputs : list UserInput) (st : AppState) : AppState :=
  fold_left (fun s inp => fst (run_script s inp)) inputs st.

(** The placements the specification calls valid for [n] qubits. *)
Definition valid_placement (n : nat) (p : Placement) : bool :=
  if String.eqb (gate_type p) "CNOT"
  then match target p with
       | Some t => ((qubit p <? n) && (t <? n) && negb (qubit p =? t))%nat
       | None => false
       end
  else existsb (String.eqb (gate_type p)) single_qubit_kinds && (qubit p <? n)%nat.

Definition placements_of (st : AppState) : list Placement :=
  match circuit_data (session_state st) with
  | Some cd => cd
  | None => []
  end.

(** What the simulator expects of an instruction on [n] qubits: indices
    below [n], a unitary 2x2 matrix, control and target distinct. *)
Definition well_formed (n : nat) (ins : Qiskit.Instruction) : Prop :=
  match ins with
  | Qiskit.Gate1 U q =>
      (q < n)%nat /\ (exists a b c d, U = [[a; b]; [c; d]]) /\ unitary U
  | Qiskit.CXGate c t => (c < n)%nat /\ (t < n)%nat /\ c <> t
  end.

(** The basis state of index [i] on [n] qubits. *)
Definition basis_state (n i : nat) : list C :=
  map (fun j => if (j =? i)%nat then Cone else Czero) (seq 0 (2 ^ n)).

(** The Bell circuit of the specification: H on qubit 0, then CNOT with
    control 0 and target 1. *)
Definition bell_circuit : list Placement :=
  [ {| gate_type := "H"; qubit := 0; target := None |};
    {| gate_type := "CNOT"; qubit := 0; target := Some 1%nat |} ].

(** The qubit count of the session state is absent or one the slider
    offers. *)
Definition qubit_count_ok (st : AppState) : Prop :=
  match num_qubits (session_state st) with
  | Some n => in_range 1 8 n = true
  | None => True
  end.

(** A circuit of one placement: X on qubit 0. *)
Definition x_circuit : list Placement :=
  [ {| gate_type := "X"; qubit := 0; target := None |} ].

(** What CNOT does to a basis index: where the control bit is 1 the
    target bit is flipped. *)
Definition cnot_image (c t i : nat) : nat :=
  if Nat.testbit i c then Qiskit.partner t i else i.

(** A run of the script in which nothing is touched. *)
Definition idle : UserInput := {| slider_choice := None; clicked := NoClick |}.

(** A placement of a single-qubit gate. *)
Definition single (kind : string) (q : nat) : Placement :=
  {| gate_type := kind; qubit := q; target := None |}.

(** A placement with its gate type in lower case. *)
Definition lower_type (p : Placement) : Placement :=
  {| gate_type := lower (gate_type p); qubit := qubit p; target := target p |}.

(** The state with another selected gate. *)
Definition with_selected_gate (sel : option string) (st : AppState) : AppState :=
  {| gate_library := gate_library st;
     session_state :=
       {| num_qubits := num_qubits (session_state st);
          circuit_data := circuit_data (session_state st);
          selected_gate := sel |} |}.

(** The gates of the table whose entries are 0, 1, -1, i and -i and that
    are their own inverse: applied twice they restore every amplitude
    without rounding. *)
Definition self_inverse_kinds : list string := ["X"; "Y"; "Z"; "I"]%string.

(** The basis index after flipping the bits [qs] of [i], one by one. *)
Definition flip_bits (qs : list nat) (i : nat) : nat :=
  fold_left (fun i q => Qiskit.partner q i) qs i.


(* ================================================================= *)
(** * Properties *)

(** ** Arithmetic of complex numbers *)

Lemma sqrt2_neq_0 : sqrt 2 <> 0.
Proof. apply Rgt_not_eq, sqrt_lt_R0; lra. Qed.

Lemma sqrt2_sqr : sqrt 2 * sqrt 2 = 2.
Proof. apply sqrt_def; lra. Qed.

Lemma inv_sqrt2_sqr : / sqrt 2 * / sqrt 2 = / 2.
Proof. rewrite <- Rinv_mult, sqrt2_sqr; reflexivity. Qed.

Lemma cos_PI4_inv : cos (PI / 4) = / sqrt 2.
Proof. rewrite cos_PI4; unfold Rdiv; lra. Qed.

Lemma sin_PI4_inv : sin (PI / 4) = / sqrt 2.
Proof. rewrite sin_PI4; unfold Rdiv; lra. Qed.

Lemma C_eq (a b : C) : fst a = fst b -> snd a = snd b -> a = b.
Proof. destruct a, b; simpl; intros; subst; reflexivity. Qed.

(** Splits an equation between vectors or matrices into equations
    between real numbers. *)
Ltac entrywise :=
  repeat match goal with
         | |- Some _ = Some _ => f_equal
         | |- _ :: _ = _ :: _ => f_equal
         | |- (_, _) = (_, _) => f_equal
         | |- @eq C _ _ => apply C_eq; simpl
         end.

Lemma Cexp_quarter_turn :
  Cexp (Cdivr (Cmul Ci (RtoC PI)) 4) = (cos (PI / 4), sin (PI / 4)).
Proof.
  unfold Cexp, Cdivr, Cmul, Ci, RtoC; simpl.
  replace ((0 * PI - 1 * 0) / 4) with 0 by (unfold Rdiv; ring).
  replace ((0 * 0 + 1 * PI) / 4) with (PI / 4) by (unfold Rdiv; ring).
  rewrite exp_0; apply C_eq; simpl; ring.
Qed.

(** ** The gate table *)

Lemma single_qubit_kind_cases (kind : string) :
  In kind single_qubit_kinds ->
  kind = "I"%string \/ kind = "X"%string \/ kind = "Y"%string \/ kind = "Z"%string \/
  kind = "H"%string \/ kind = "S"%string \/ kind = "T"%string.
Proof.
  unfold single_qubit_kinds; simpl; intros Hin.
  repeat (destruct Hin as [Hin | Hin]; [subst; tauto |]); contradiction.
Qed.

(** C1: for each of I, X, Y, Z, H, S and T the gate table holds a matrix,
    and it is, entry by entry, the matrix the specification writes for
    that kind. *)
Theorem gate_table_matches_spec (kind : string) :
  In kind single_qubit_kinds ->
  (exists U, gate_matrix GATE_MATRICES kind = Some U) /\
  gate_matrix GATE_MATRICES kind = spec_matrixFor kind.
Proof.
  intros Hin.
  destruct (single_qubit_kind_cases kind Hin) as [H|[H|[H|[H|[H|[H|H]]]]]]; subst kind;
    (split; [eexists; reflexivity |]);
    unfold gate_matrix, spec_matrixFor; simpl;
    try rewrite Cexp_quarter_turn;
    unfold mat_div, mat_scale, Cdivr, Cscale, Copp, Ci, RtoC; simpl;
    entrywise; try reflexivity; try (field; apply sqrt2_neq_0); try lra.
Qed.

Lemma gate_table_matches_spec_witness :
  In "H"%string single_qubit_kinds /\
  (exists U, gate_matrix GATE_MATRICES "H" = Some U) /\
  gate_matrix GATE_MATRICES "H" = spec_matrixFor "H".
Proof.
  split.
  - simpl; tauto.
  - apply gate_table_matches_spec; simpl; tauto.
Defined.

(** ** Unitarity of the stored matrices *)

Ltac unfold_matrices :=
  unfold unitary, matmul, matvec, dagger, transpose, column, ncols, identity, dot, Csum,
    mat_div, mat_scale; simpl;
  unfold Cadd, Cmul, Cconj, Cdivr, Cscale, Copp, Csub, Ci, Cone, Czero, RtoC; simpl.

(** Closes an equation between real numbers that may mention [/ sqrt 2]. *)
Ltac sqrt2_arith :=
  unfold Rdiv;
  generalize inv_sqrt2_sqr; generalize (/ sqrt 2); intros; nra.

Lemma unitary_cases (kind : string) (U : Matrix) :
  gate_matrix GATE_MATRICES kind = Some U ->
  In U [ [[RtoC 0; RtoC 1]; [RtoC 1; RtoC 0]];
         [[RtoC 0; Copp Ci]; [Ci; RtoC 0]];
         [[RtoC 1; RtoC 0]; [RtoC 0; RtoC (-1)]];
         mat_div [[RtoC 1; RtoC 1]; [RtoC 1; RtoC (-1)]] (sqrt 2);
         [[RtoC 1; RtoC 0]; [RtoC 0; Ci]];
         [[RtoC 1; RtoC 0]; [RtoC 0; Cexp (Cdivr (Cmul Ci (RtoC PI)) 4)]];
         [[RtoC 1; RtoC 0]; [RtoC 0; RtoC 1]] ].
Proof.
  unfold gate_matrix, GATE_MATRICES, dict_get.
  repeat match goal with
         | |- context [String.eqb kind ?k] => destruct (String.eqb kind k)
         end; simpl; intros E; try discriminate; injection E as <-; tauto.
Qed.

Lemma table_unitary (kind : string) (U : Matrix) :
  gate_matrix GATE_MATRICES kind = Some U -> unitary U.
Proof.
  intros E; apply unitary_cases in E; simpl in E.
  repeat (destruct E as [E | E]; [subst U |]); try contradiction;
    try rewrite Cexp_quarter_turn, cos_PI4_inv, sin_PI4_inv;
    unfold_matrices; split; entrywise; try lra; sqrt2_arith.
Qed.

Lemma table_shape (kind : string) (U : Matrix) :
  gate_matrix GATE_MATRICES kind = Some U ->
  exists p q r s, U = [[p; q]; [r; s]].
Proof.
  intros E; apply unitary_cases in E; simpl in E.
  repeat (destruct E as [E | E]; [subst U; do 4 eexists; reflexivity |]); contradiction.
Qed.

Lemma matvec_matmul_2x2 (p q r s p' q' r' s' a b : C) :
  matvec [[p; q]; [r; s]] (matvec [[p'; q']; [r'; s']] [a; b]) =
  matvec (matmul [[p; q]; [r; s]] [[p'; q']; [r'; s']]) [a; b].
Proof. unfold_matrices; entrywise; ring. Qed.

Lemma matvec_identity_2 (a b : C) : matvec (identity 2) [a; b] = [a; b].
Proof. destruct a, b; unfold_matrices; entrywise; ring. Qed.

Lemma round_trip_2x2 (p q r s a b : C) :
  unitary [[p; q]; [r; s]] ->
  matvec (dagger [[p; q]; [r; s]]) (matvec [[p; q]; [r; s]] [a; b]) = [a; b].
Proof.
  intros [_ HU].
  change (dagger [[p; q]; [r; s]]) with [[Cconj p; Cconj r]; [Cconj q; Cconj s]] in *.
  rewrite matvec_matmul_2x2, HU.
  apply matvec_identity_2.
Qed.

Lemma Cclose_refl (tol : R) (a : C) : Cclose tol a a.
Proof.
  unfold Cclose, Cnorm2, Csub; simpl.
  replace ((fst a - fst a) * (fst a - fst a) + (snd a - snd a) * (snd a - snd a))
    with 0 by ring.
  nra.
Qed.

Lemma Forall2_Cclose_refl (tol : R) (v : list C) : Forall2 (Cclose tol) v v.
Proof. induction v; constructor; auto using Cclose_refl. Qed.

(** C6: every matrix [U] the gate table stores is unitary, [U U† = I] (and
    [U† U = I]); hence applying [U] and then [U†] to a single-qubit state
    [a, b] (normalized or not) gives back [a, b], each amplitude within
    the tolerance 1e-9. *)
Theorem table_gate_round_trip (kind : string) (U : Matrix) (a b : C) :
  gate_matrix GATE_MATRICES kind = Some U ->
  matmul U (dagger U) = identity 2 /\
  matvec (dagger U) (matvec U [a; b]) = [a; b] /\
  Forall2 (Cclose tolerance) (matvec (dagger U) (matvec U [a; b])) [a; b].
Proof.
  intros E.
  pose proof (table_unitary kind U E) as HU.
  destruct (table_shape kind U E) as (p & q & r & s & ->).
  assert (Hrt := round_trip_2x2 p q r s a b HU).
  split; [exact (proj1 HU) |].
  split; [exact Hrt |].
  rewrite Hrt; apply Forall2_Cclose_refl.
Qed.

Lemma table_gate_round_trip_witness :
  gate_matrix GATE_MATRICES "H" =
    Some (mat_div [[RtoC 1; RtoC 1]; [RtoC 1; RtoC (-1)]] (sqrt 2)) /\
  matvec (dagger (mat_div [[RtoC 1; RtoC 1]; [RtoC 1; RtoC (-1)]] (sqrt 2)))
         (matvec (mat_div [[RtoC 1; RtoC 1]; [RtoC 1; RtoC (-1)]] (sqrt 2)) [Cone; Czero])
  = [Cone; Czero].
Proof.
  split.
  - reflexivity.
  - apply (table_gate_round_trip "H" _ Cone Czero); reflexivity.
Defined.

(* ================================================================= *)
(** ** The state-vector simulator *)

(** *** Index arithmetic *)

Lemma partner_testbit (q i k : nat) :
  Nat.testbit (Qiskit.partner q i) k = xorb (Nat.testbit i k) (q =? k)%nat.
Proof. unfold Qiskit.partner; rewrite Nat.lxor_spec, Nat.pow2_bits_eqb; reflexivity. Qed.

Lemma partner_testbit_same (q i : nat) :
  Nat.testbit (Qiskit.partner q i) q = negb (Nat.testbit i q).
Proof. rewrite partner_testbit, Nat.eqb_refl; destruct (Nat.testbit i q); reflexivity. Qed.

Lemma partner_testbit_other (q i k : nat) :
  q <> k -> Nat.testbit (Qiskit.partner q i) k = Nat.testbit i k.
Proof.
  intros Hne; rewrite partner_testbit.
  apply Nat.eqb_neq in Hne; rewrite Hne; destruct (Nat.testbit i k); reflexivity.
Qed.

Lemma partner_involutive (q i : nat) : Qiskit.partner q (Qiskit.partner q i) = i.
Proof.
  unfold Qiskit.partner.
  rewrite Nat.lxor_assoc, Nat.lxor_nilpotent, Nat.lxor_0_r; reflexivity.
Qed.

Lemma partner_injective (q : nat) : Injective (Qiskit.partner q).
Proof.
  intros i j E.
  rewrite <- (partner_involutive q i), <- (partner_involutive q j), E; reflexivity.
Qed.

Lemma pow2_pos (n : nat) : (0 < 2 ^ n)%nat.
Proof. apply Nat.neq_0_lt_0, Nat.pow_nonzero; discriminate. Qed.

Lemma partner_lt (n q i : nat) :
  (q < n)%nat -> (i < 2 ^ n)%nat -> (Qiskit.partner q i < 2 ^ n)%nat.
Proof.
  intros Hq Hi; unfold Qiskit.partner.
  destruct (Nat.eq_dec (Nat.lxor i (2 ^ q)) 0) as [E | E].
  - rewrite E; apply pow2_pos.
  - apply Nat.log2_lt_pow2; [lia |].
    eapply Nat.le_lt_trans; [apply Nat.log2_lxor |].
    rewrite Nat.log2_pow2 by lia.
    apply Nat.max_lub_lt; [| exact Hq].
    destruct (Nat.eq_dec i 0) as [-> | Hi0]; [rewrite Nat.log2_nonpos; lia |].
    apply Nat.log2_lt_pow2; [lia | exact Hi].
Qed.

(** Where bit [q] is clear the partner is [2^q] further up. *)
Lemma partner_clear_bit (q i : nat) :
  Nat.testbit i q = false -> Qiskit.partner q i = (i + 2 ^ q)%nat.
Proof.
  intros Hb; unfold Qiskit.partner.
  rewrite Nat.lxor_comm, Nat.add_comm.
  symmetry; apply Nat.add_nocarry_lxor.
  apply Nat.bits_inj; intros k.
  rewrite Nat.land_spec, Nat.pow2_bits_eqb, Nat.bits_0.
  destruct (Nat.eqb_spec q k) as [-> | _]; [rewrite Hb |]; reflexivity.
Qed.

(** *** Sums over index ranges *)

Lemma Rsum_permutation (l l' : list R) : Permutation l l' -> Rsum l = Rsum l'.
Proof. induction 1; simpl; lra. Qed.

Lemma Rsum_map_add {A : Type} (f g : A -> R) (l : list A) :
  Rsum (map (fun x => f x + g x) l) = Rsum (map f l) + Rsum (map g l).
Proof. induction l; simpl; [lra | rewrite IHl; lra]. Qed.

Lemma Rsum_map_ext_in {A : Type} (f g : A -> R) (l : list A) :
  (forall x, In x l -> f x = g x) -> Rsum (map f l) = Rsum (map g l).
Proof. intros H; f_equal; apply map_ext_in; exact H. Qed.

Lemma map_amp_seq (v : list C) : map (Qiskit.amp v) (seq 0 (List.length v)) = v.
Proof.
  apply nth_ext with (d := Qiskit.amp v 0%nat) (d' := Czero).
  - rewrite length_map, length_seq; reflexivity.
  - rewrite length_map, length_seq; intros i Hi.
    rewrite (map_nth (Qiskit.amp v)), seq_nth by exact Hi; reflexivity.
Qed.

Lemma norm2_as_sum (v : list C) :
  norm2 v = Rsum (map (fun i => Cnorm2 (Qiskit.amp v i)) (seq 0 (List.length v))).
Proof.
  unfold norm2.
  rewrite <- (map_map (Qiskit.amp v) Cnorm2), map_amp_seq; reflexivity.
Qed.

(** Flipping one bit permutes the indices of an [n]-qubit vector. *)
Lemma partner_permutation (n q : nat) :
  (q < n)%nat ->
  Permutation (map (Qiskit.partner q) (seq 0 (2 ^ n))) (seq 0 (2 ^ n)).
Proof.
  intros Hq; apply Permutation_map_same_l.
  - apply Injective_map_NoDup; [apply partner_injective | apply seq_NoDup].
  - intros j Hj; apply in_map_iff in Hj; destruct Hj as (i & <- & Hi).
    apply in_seq in Hi; apply in_seq.
    split; [lia |]; simpl; apply partner_lt; [exact Hq | lia].
Qed.

Lemma Rsum_reindex (n q : nat) (f : nat -> R) :
  (q < n)%nat ->
  Rsum (map (fun i => f (Qiskit.partner q i)) (seq 0 (2 ^ n))) = Rsum (map f (seq 0 (2 ^ n))).
Proof.
  intros Hq.
  rewrite <- (map_map (Qiskit.partner q) f).
  apply Rsum_permutation, Permutation_map, partner_permutation, Hq.
Qed.

(** Two summands that agree pairwise, over the pairs [i], [partner q i],
    have the same sum. *)
Lemma Rsum_pairing (n q : nat) (f g : nat -> R) :
  (q < n)%nat ->
  (forall i, f i + f (Qiskit.partner q i) = g i + g (Qiskit.partner q i)) ->
  Rsum (map f (seq 0 (2 ^ n))) = Rsum (map g (seq 0 (2 ^ n))).
Proof.
  intros Hq Hpair.
  assert (H2 : forall h : nat -> R,
             Rsum (map (fun i => h i + h (Qiskit.partner q i)) (seq 0 (2 ^ n)))
             = 2 * Rsum (map h (seq 0 (2 ^ n)))).
  { intros h.
    rewrite (Rsum_map_add h (fun i => h (Qiskit.partner q i))), Rsum_reindex by exact Hq.
    lra. }
  assert (E : 2 * Rsum (map f (seq 0 (2 ^ n))) = 2 * Rsum (map g (seq 0 (2 ^ n)))).
  { rewrite <- !H2; apply Rsum_map_ext_in; intros i _; apply Hpair. }
  lra.
Qed.

(** *** Unitary steps keep the norm *)

Ltac unfold_matrices_in H :=
  unfold unitary, matmul, matvec, dagger, transpose, column, ncols, identity, dot, Csum,
    mat_div, mat_scale in H; simpl in H;
  unfold Cadd, Cmul, Cconj, Cdivr, Cscale, Copp, Csub, Ci, Cone, Czero, RtoC in H; simpl in H.

Lemma unitary_pair (p q r s a b : C) :
  unitary [[p; q]; [r; s]] ->
  Cnorm2 (Cadd (Cmul p a) (Cmul q b)) + Cnorm2 (Cadd (Cmul r a) (Cmul s b)) =
  Cnorm2 a + Cnorm2 b.
Proof.
  intros [_ H].
  destruct p as [p1 p2], q as [q1 q2], r as [r1 r2], s as [s1 s2], a as [a1 a2], b as [b1 b2].
  unfold_matrices_in H. unfold Cnorm2, Cadd, Cmul; simpl.
  injection H as E1 _ E3 E4 _ _ E7 _.
  apply Rminus_diag_uniq.
  match goal with |- ?L - ?R = 0 =>
    replace (L - R) with
      ((p1 * p1 - - p2 * p2 + (r1 * r1 - - r2 * r2 + 0) - 1) * (a1 * a1 + a2 * a2)
       + (q1 * q1 - - q2 * q2 + (s1 * s1 - - s2 * s2 + 0) - 1) * (b1 * b1 + b2 * b2)
       + 2 * (p1 * q1 - - p2 * q2 + (r1 * s1 - - r2 * s2 + 0)) * (a1 * b1 + a2 * b2)
       - 2 * (p1 * q2 + - p2 * q1 + (r1 * s2 + - r2 * s1 + 0)) * (a1 * b2 - a2 * b1))
      by ring
  end.
  rewrite E1, E3, E4, E7; ring.
Qed.

Lemma apply_gate_length (U : Matrix) (q : nat) (v : list C) :
  List.length (Qiskit.apply_gate U q v) = List.length v.
Proof. unfold Qiskit.apply_gate; rewrite length_map, length_seq; reflexivity. Qed.

Lemma apply_cx_length (c t : nat) (v : list C) :
  List.length (Qiskit.apply_cx c t v) = List.length v.
Proof. unfold Qiskit.apply_cx; rewrite length_map, length_seq; reflexivity. Qed.

Lemma apply_gate_norm2 (n k : nat) (p q r s : C) (v : list C) :
  List.length v = (2 ^ n)%nat -> (k < n)%nat -> unitary [[p; q]; [r; s]] ->
  norm2 (Qiskit.apply_gate [[p; q]; [r; s]] k v) = norm2 v.
Proof.
  intros Hlen Hk HU.
  rewrite (norm2_as_sum v).
  unfold norm2, Qiskit.apply_gate; rewrite map_map, Hlen.
  apply Rsum_pairing with (q := k); [exact Hk |].
  intros i; rewrite partner_testbit_same, partner_involutive.
  unfold entry; simpl.
  destruct (Nat.testbit i k); simpl.
  - rewrite Rplus_comm, (Rplus_comm (Cnorm2 (Qiskit.amp v i))).
    apply unitary_pair, HU.
  - apply unitary_pair, HU.
Qed.

Lemma apply_cx_norm2 (n c t : nat) (v : list C) :
  List.length v = (2 ^ n)%nat -> (t < n)%nat -> c <> t ->
  norm2 (Qiskit.apply_cx c t v) = norm2 v.
Proof.
  intros Hlen Ht Hct.
  rewrite (norm2_as_sum v).
  unfold norm2, Qiskit.apply_cx; rewrite map_map, Hlen.
  apply Rsum_pairing with (q := t); [exact Ht |].
  intros i; rewrite partner_testbit_other by auto; rewrite partner_involutive.
  destruct (Nat.testbit i c); lra.
Qed.

Lemma zero_state_length (n : nat) : List.length (Qiskit.zero_state n) = (2 ^ n)%nat.
Proof.
  unfold Qiskit.zero_state; simpl; rewrite repeat_length.
  pose proof (pow2_pos n); lia.
Qed.

Lemma norm2_repeat_zero (k : nat) : norm2 (repeat Czero k) = 0.
Proof.
  unfold norm2; induction k; simpl; [reflexivity |].
  rewrite IHk; unfold Cnorm2; simpl; ring.
Qed.

Lemma zero_state_norm2 (n : nat) : norm2 (Qiskit.zero_state n) = 1.
Proof.
  unfold Qiskit.zero_state.
  change (norm2 (Cone :: repeat Czero (2 ^ n - 1)))
    with (Cnorm2 Cone + norm2 (repeat Czero (2 ^ n - 1))).
  rewrite norm2_repeat_zero; unfold Cnorm2; simpl; ring.
Qed.

(** *** Runs of instructions *)

Lemma apply_instruction_invariant (n : nat) (ins : Qiskit.Instruction) (v : list C) :
  well_formed n ins -> List.length v = (2 ^ n)%nat ->
  List.length (Qiskit.apply_instruction v ins) = (2 ^ n)%nat /\
  norm2 (Qiskit.apply_instruction v ins) = norm2 v.
Proof.
  intros Hwf Hlen; destruct ins as [U q | c t]; simpl in *.
  - destruct Hwf as (Hq & (a & b & c & d & ->) & HU).
    rewrite apply_gate_length; split; [exact Hlen |].
    apply apply_gate_norm2 with (n := n); assumption.
  - destruct Hwf as (Hc & Ht & Hct).
    rewrite apply_cx_length; split; [exact Hlen |].
    apply apply_cx_norm2 with (n := n); assumption.
Qed.

Lemma run_instructions_invariant (n : nat) (l : list Qiskit.Instruction) :
  Forall (well_formed n) l ->
  forall v, List.length v = (2 ^ n)%nat ->
  List.length (Qiskit.run_instructions l v) = (2 ^ n)%nat /\
  norm2 (Qiskit.run_instructions l v) = norm2 v.
Proof.
  induction 1 as [| ins l Hins _ IH]; intros v Hlen; simpl.
  - split; [exact Hlen | reflexivity].
  - destruct (apply_instruction_invariant n ins v Hins Hlen) as [Hlen' Hnorm'].
    destruct (IH _ Hlen') as [Hlen'' Hnorm''].
    split; [exact Hlen'' | rewrite Hnorm''; exact Hnorm'].
Qed.

Lemma normalized_of_unit_norm (v : list C) : norm2 v = 1 -> normalized v.
Proof.
  intros E; unfold normalized, tolerance; rewrite E.
  replace (1 - 1) with 0 by ring; rewrite Rabs_R0.
  left; apply Rinv_0_lt_compat; lra.
Qed.

(** *** Qiskit's standard gates *)

Lemma standard_gate_unitary (attr : string)
      (m : nat -> Qiskit.QuantumCircuit -> PyResult Qiskit.QuantumCircuit) :
  Qiskit.method attr = Some m ->
  exists U, m = Qiskit.append1 U /\ (exists a b c d, U = [[a; b]; [c; d]]) /\ unitary U.
Proof.
  unfold Qiskit.method.
  repeat match goal with
         | |- context [String.eqb attr ?k] => destruct (String.eqb attr k)
         end; intros E; try discriminate; injection E as <-;
    eexists; (split; [reflexivity |]); (split; [do 4 eexists; reflexivity |]);
    unfold Qiskit.XGate, Qiskit.YGate, Qiskit.ZGate, Qiskit.HGate, Qiskit.SGate,
      Qiskit.TGate, Qiskit.IGate;
    unfold_matrices; split; entrywise; try lra; sqrt2_arith.
Qed.

(** The gate methods the handler reaches through [getattr] apply the
    very matrices the gate table stores. *)
Lemma table_agrees_with_standard_gates (kind : string) (U : Matrix) :
  In kind single_qubit_kinds ->
  gate_matrix GATE_MATRICES kind = Some U ->
  Qiskit.method (lower kind) = Some (Qiskit.append1 U).
Proof.
  intros Hin E.
  destruct (single_qubit_kind_cases kind Hin) as [H|[H|[H|[H|[H|[H|H]]]]]]; subst kind;
    unfold gate_matrix in E; simpl in E; injection E as <-;
    change (Qiskit.method (lower "I")) with (Some (Qiskit.append1 Qiskit.IGate));
    change (Qiskit.method (lower "X")) with (Some (Qiskit.append1 Qiskit.XGate));
    change (Qiskit.method (lower "Y")) with (Some (Qiskit.append1 Qiskit.YGate));
    change (Qiskit.method (lower "Z")) with (Some (Qiskit.append1 Qiskit.ZGate));
    change (Qiskit.method (lower "H")) with (Some (Qiskit.append1 Qiskit.HGate));
    change (Qiskit.method (lower "S")) with (Some (Qiskit.append1 Qiskit.SGate));
    change (Qiskit.method (lower "T")) with (Some (Qiskit.append1 Qiskit.TGate));
    do 2 f_equal;
    unfold Qiskit.XGate, Qiskit.YGate, Qiskit.ZGate, Qiskit.HGate, Qiskit.SGate,
      Qiskit.TGate, Qiskit.IGate;
    try rewrite Cexp_quarter_turn, cos_PI4_inv, sin_PI4_inv;
    unfold mat_div, mat_scale, Cdivr, Cscale, Cadd, Copp, Ci, RtoC; simpl;
    entrywise; try reflexivity; try (field; apply sqrt2_neq_0); try lra.
Qed.

(** *** Building the circuit from valid placements *)

Lemma valid_single_kind (gt : string) :
  existsb (String.eqb gt) single_qubit_kinds = true -> In gt single_qubit_kinds.
Proof.
  intros H; apply existsb_exists in H; destruct H as (k & Hin & E).
  apply String.eqb_eq in E; subst; exact Hin.
Qed.

Lemma apply_placement_valid (n : nat) (p : Placement) (qc : Qiskit.QuantumCircuit) :
  valid_placement n p = true -> Qiskit.qc_num_qubits qc = n ->
  exists ins,
    apply_placement p qc =
      Returned {| Qiskit.qc_num_qubits := n; Qiskit.qc_data := Qiskit.qc_data qc ++ [ins] |}
    /\ well_formed n ins.
Proof.
  destruct p as [gt q t]; unfold valid_placement, apply_placement; simpl.
  intros Hv Hn.
  destruct (String.eqb gt "CNOT").
  - destruct t as [t |]; [| discriminate].
    unfold Qiskit.cx; rewrite Hn, Hv.
    apply andb_prop in Hv; destruct Hv as [Hv Hne].
    apply andb_prop in Hv; destruct Hv as [Hq Ht].
    apply Nat.ltb_lt in Hq, Ht.
    apply negb_true_iff, Nat.eqb_neq in Hne.
    eexists; split; [reflexivity | simpl; auto].
  - apply andb_prop in Hv; destruct Hv as [Hk Hq].
    apply valid_single_kind in Hk.
    destruct (Qiskit.method (lower gt)) as [m |] eqn:Hm.
    + destruct (standard_gate_unitary _ _ Hm) as (U & -> & Hshape & HU).
      unfold Qiskit.append1; rewrite Hn, Hq.
      apply Nat.ltb_lt in Hq.
      eexists; split; [reflexivity | simpl; auto].
    + destruct (single_qubit_kind_cases gt Hk) as [E|[E|[E|[E|[E|[E|E]]]]]]; subst gt;
        simpl in Hm; discriminate.
Qed.

Lemma apply_gates_valid (n : nat) (cd : list Placement) :
  forallb (valid_placement n) cd = true ->
  forall qc, Qiskit.qc_num_qubits qc = n ->
  exists l,
    apply_gates cd qc =
      Returned {| Qiskit.qc_num_qubits := n; Qiskit.qc_data := Qiskit.qc_data qc ++ l |}
    /\ Forall (well_formed n) l /\ List.length l = List.length cd.
Proof.
  induction cd as [| p cd IH]; simpl; intros Hv qc Hn.
  - exists []; rewrite app_nil_r; destruct qc; simpl in *; subst; auto.
  - apply andb_prop in Hv; destruct Hv as [Hp Hcd].
    destruct (apply_placement_valid n p qc Hp Hn) as (ins & -> & Hins); simpl.
    destruct (IH Hcd {| Qiskit.qc_num_qubits := n; Qiskit.qc_data := Qiskit.qc_data qc ++ [ins] |}
                eq_refl) as (l & -> & Hl & Hlen); simpl.
    exists (ins :: l); rewrite <- app_assoc; simpl; auto.
Qed.

Lemma Forall_prefix {A : Type} (P : A -> Prop) (k : nat) (l : list A) :
  Forall P l -> Forall P (firstn k l).
Proof.
  intros H; revert k; induction H; intros [| k]; simpl; constructor; auto.
Qed.

(** In exact arithmetic: for every qubit count [n] and every circuit of
    valid placements, the loop of the handler builds a circuit with one
    instruction per placement; from the all-zero state, the vector after
    every prefix of these instructions has [2^n] entries and
    squared-magnitude sum 1; and when the circuit is not empty the
    handler returns the final vector.  The doubles of the program round;
    how far their sum of squares drifts from 1 is outside this model. *)
Theorem execution_keeps_norm (n : nat) (cd : list Placement) :
  forallb (valid_placement n) cd = true ->
  exists qc,
    apply_gates cd (Qiskit.new_circuit n) = Returned qc /\
    List.length (Qiskit.qc_data qc) = List.length cd /\
    (forall k,
        let v := Qiskit.run_instructions (firstn k (Qiskit.qc_data qc)) (Qiskit.zero_state n) in
        List.length v = (2 ^ n)%nat /\ norm2 v = 1 /\ normalized v) /\
    normalized (Qiskit.get_statevector qc) /\
    (cd <> [] -> execute_circuit n cd = Success (Qiskit.get_statevector qc)).
Proof.
  intros Hv.
  destruct (apply_gates_valid n cd Hv (Qiskit.new_circuit n) eq_refl) as (l & E & Hl & Hlen).
  simpl in E.
  assert (Hpre : forall l', Forall (well_formed n) l' ->
             let v := Qiskit.run_instructions l' (Qiskit.zero_state n) in
             List.length v = (2 ^ n)%nat /\ norm2 v = 1 /\ normalized v).
  { intros l' Hl' v.
    destruct (run_instructions_invariant n l' Hl' _ (zero_state_length n)) as [H1 H2].
    fold v in H1, H2; rewrite zero_state_norm2 in H2.
    auto using normalized_of_unit_norm. }
  eexists; split; [exact E |]; simpl.
  split; [exact Hlen |].
  split; [intros k; apply Hpre, Forall_prefix, Hl |].
  split; [apply (Hpre l Hl) |].
  intros Hne; unfold execute_circuit.
  destruct cd as [| p cd]; [contradiction |].
  rewrite E; reflexivity.
Qed.

Lemma execution_keeps_norm_witness :
  forallb (valid_placement 2) bell_circuit = true /\
  exists qc,
    apply_gates bell_circuit (Qiskit.new_circuit 2) = Returned qc /\
    normalized (Qiskit.get_statevector qc) /\
    execute_circuit 2 bell_circuit = Success (Qiskit.get_statevector qc).
Proof.
  split; [reflexivity |].
  destruct (execution_keeps_norm 2 bell_circuit eq_refl) as (qc & E & _ & _ & Hn & Hex).
  exists qc; split; [exact E |]; split; [exact Hn |].
  apply Hex; discriminate.
Defined.

(** ** The Bell state *)

(** C3: on 2 qubits, from the all-zero state, the placements H on qubit 0
    and CNOT with control 0 and target 1 make the handler return the
    vector (1/sqrt 2, 0, 0, 1/sqrt 2), each amplitude within 1e-9 (here
    exactly). *)
Theorem bell_state_returned :
  exists sv,
    execute_circuit 2 bell_circuit = Success sv /\
    sv = [(1 / sqrt 2, 0); Czero; Czero; (1 / sqrt 2, 0)] /\
    Forall2 (Cclose tolerance) sv [(1 / sqrt 2, 0); Czero; Czero; (1 / sqrt 2, 0)].
Proof.
  assert (E : Qiskit.get_statevector
                {| Qiskit.qc_num_qubits := 2;
                   Qiskit.qc_data := [Qiskit.Gate1 Qiskit.HGate 0; Qiskit.CXGate 0 1] |}
              = [(1 / sqrt 2, 0); Czero; Czero; (1 / sqrt 2, 0)]).
  { unfold Qiskit.get_statevector, Qiskit.run_instructions; simpl.
    unfold Qiskit.apply_cx, Qiskit.apply_gate, Qiskit.zero_state, Qiskit.amp,
      Qiskit.partner, entry, Qiskit.HGate; simpl.
    unfold_matrices; entrywise; lra. }
  exists [(1 / sqrt 2, 0); Czero; Czero; (1 / sqrt 2, 0)].
  split; [rewrite <- E; reflexivity |].
  split; [reflexivity | apply Forall2_Cclose_refl].
Qed.

(** The bit convention: X on qubit 0 of the 2-qubit all-zero state puts
    amplitude 1 at index 1. *)
Example x_on_qubit_0 :
  execute_circuit 2 x_circuit = Success [Czero; Cone; Czero; Czero].
Proof.
  unfold execute_circuit; simpl.
  unfold Qiskit.get_statevector, Qiskit.run_instructions; simpl.
  unfold Qiskit.apply_gate, Qiskit.zero_state, Qiskit.amp, Qiskit.partner, entry,
    Qiskit.XGate; simpl.
  unfold_matrices; f_equal; entrywise; lra.
Qed.

(** ** The empty circuit *)

Lemma empty_circuit_no_statevector :
  ~ (exists sv, execute_circuit 3 [] = Success sv).
Proof. intros [sv E]; discriminate E. Qed.

(** C4, as the program has it: for every qubit count, executing the empty
    circuit runs no simulation and returns no state vector; the handler
    shows the warning "Please add some gates to the circuit first!". *)
Theorem empty_circuit_warns (n : nat) :
  execute_circuit n [] = Warning "Please add some gates to the circuit first!" /\
  (forall sv, execute_circuit n [] <> Success sv).
Proof. split; [reflexivity | intros sv E; discriminate E]. Qed.

(** ** [place_gate] *)

Lemma place_gate_out_of_range_returns :
  let st := {| gate_library := GATE_MATRICES;
               session_state := {| num_qubits := Some 2%nat; circuit_data := Some [];
                                   selected_gate := None |} |} in
  (2 <= 5)%nat /\ ~ (exists e, fst (place_gate 5 0 "X" st) = Raised e).
Proof. simpl; split; [lia | intros [e E]; discriminate E]. Qed.

(** C5, as the program has it: [place_gate] checks nothing and never
    fails; for every circuit and every request, whatever the qubit index,
    it returns normally and the placement sequence (the whole state) is
    what it was before the call. *)
Theorem place_gate_returns_unchanged (q time : nat) (kind : string) (st : AppState) :
  fst (place_gate q time kind st) = Returned tt /\
  placements_of (snd (place_gate q time kind st)) = placements_of st /\
  snd (place_gate q time kind st) = st.
Proof. repeat split. Qed.

(** ** CNOT *)

Lemma basis_state_length (n i : nat) : List.length (basis_state n i) = (2 ^ n)%nat.
Proof. unfold basis_state; rewrite length_map, length_seq; reflexivity. Qed.

Lemma nth_map_seq {A : Type} (f : nat -> A) (m j : nat) (d : A) :
  (j < m)%nat -> nth j (map f (seq 0 m)) d = f j.
Proof.
  intros Hj.
  rewrite nth_indep with (d' := f 0%nat) by (rewrite length_map, length_seq; exact Hj).
  rewrite map_nth, seq_nth by exact Hj; reflexivity.
Qed.

Lemma amp_basis_state (n i j : nat) :
  (i < 2 ^ n)%nat ->
  Qiskit.amp (basis_state n i) j = if (j =? i)%nat then Cone else Czero.
Proof.
  intros Hi; unfold Qiskit.amp, basis_state.
  destruct (Nat.lt_ge_cases j (2 ^ n)) as [Hj | Hj].
  - rewrite nth_map_seq by exact Hj; reflexivity.
  - rewrite nth_overflow by (rewrite length_map, length_seq; exact Hj).
    destruct (Nat.eqb_spec j i); [lia | reflexivity].
Qed.

Lemma cnot_image_lt (n c t i : nat) :
  (t < n)%nat -> (i < 2 ^ n)%nat -> (cnot_image c t i < 2 ^ n)%nat.
Proof.
  intros Ht Hi; unfold cnot_image.
  destruct (Nat.testbit i c); [apply partner_lt; assumption | exact Hi].
Qed.

Lemma cnot_image_involutive (c t i : nat) :
  c <> t -> cnot_image c t (cnot_image c t i) = i.
Proof.
  intros Hct; unfold cnot_image.
  destruct (Nat.testbit i c) eqn:Hb.
  - rewrite partner_testbit_other, Hb by auto; apply partner_involutive.
  - rewrite Hb; reflexivity.
Qed.

Lemma apply_cx_basis_state (n c t i : nat) :
  (t < n)%nat -> c <> t -> (i < 2 ^ n)%nat ->
  Qiskit.apply_cx c t (basis_state n i) = basis_state n (cnot_image c t i).
Proof.
  intros Ht Hct Hi.
  unfold Qiskit.apply_cx; rewrite basis_state_length.
  unfold basis_state at 3; apply map_ext; intros j.
  rewrite !amp_basis_state by exact Hi.
  assert (E : (if Nat.testbit j c then (Qiskit.partner t j =? i)%nat else (j =? i)%nat)
              = (j =? cnot_image c t i)%nat).
  { replace (if Nat.testbit j c then (Qiskit.partner t j =? i)%nat else (j =? i)%nat)
      with (cnot_image c t j =? i)%nat by (unfold cnot_image; destruct (Nat.testbit j c); reflexivity).
    destruct (Nat.eqb_spec (cnot_image c t j) i) as [E | E];
      destruct (Nat.eqb_spec j (cnot_image c t i)) as [E' | E']; try reflexivity; exfalso.
    - apply E'; rewrite <- E, cnot_image_involutive; auto.
    - apply E; rewrite E', cnot_image_involutive; auto. }
  destruct (Nat.testbit j c); rewrite <- E; reflexivity.
Qed.

Lemma cnot_library_entry_has_no_matrix :
  ~ (exists U, gate_matrix GATE_MATRICES "CNOT" = Some U).
Proof. intros [U E]; discriminate E. Qed.

(** C8, as the program has it: the gate table stores no matrix for CNOT
    (the entry is [None], with [is_multi_qubit] set); a CNOT placement
    with control [c] and target [t] is handed to [qc.cx c t], whose
    action on the vector is a permutation of the basis states: index [i]
    goes to itself when bit [c] of [i] is 0 and to the index with bit [t]
    flipped (all other bits kept) when bit [c] is 1; the map is its own
    inverse and keeps the norm of every vector. *)
Theorem cnot_is_basis_permutation (n c t i : nat) :
  (c < n)%nat -> (t < n)%nat -> c <> t -> (i < 2 ^ n)%nat ->
  gate_matrix GATE_MATRICES "CNOT" = None /\
  apply_placement {| gate_type := "CNOT"; qubit := c; target := Some t |}
                  (Qiskit.new_circuit n)
    = Returned {| Qiskit.qc_num_qubits := n; Qiskit.qc_data := [Qiskit.CXGate c t] |} /\
  Qiskit.apply_cx c t (basis_state n i) = basis_state n (cnot_image c t i) /\
  (cnot_image c t i < 2 ^ n)%nat /\
  cnot_image c t (cnot_image c t i) = i /\
  (Nat.testbit i c = false -> cnot_image c t i = i) /\
  (Nat.testbit i c = true ->
   forall k, Nat.testbit (cnot_image c t i) k = xorb (Nat.testbit i k) (t =? k)%nat) /\
  (forall v, List.length v = (2 ^ n)%nat -> norm2 (Qiskit.apply_cx c t v) = norm2 v).
Proof.
  intros Hc Ht Hct Hi.
  split; [reflexivity |].
  split.
  { unfold apply_placement, Qiskit.cx; simpl.
    apply Nat.ltb_lt in Hc, Ht; apply Nat.eqb_neq in Hct.
    rewrite Hc, Ht, Hct; reflexivity. }
  split; [apply apply_cx_basis_state; assumption |].
  split; [apply cnot_image_lt; assumption |].
  split; [apply cnot_image_involutive; assumption |].
  split; [intros Hb; unfold cnot_image; rewrite Hb; reflexivity |].
  split; [intros Hb k; unfold cnot_image; rewrite Hb; apply partner_testbit |].
  intros v Hlen; apply apply_cx_norm2 with (n := n); assumption.
Qed.

Lemma cnot_is_basis_permutation_witness :
  (0 < 2)%nat /\ (1 < 2)%nat /\ 0%nat <> 1%nat /\ (1 < 2 ^ 2)%nat /\
  Qiskit.apply_cx 0 1 (basis_state 2 1) = basis_state 2 (cnot_image 0 1 1) /\
  cnot_image 0 1 1 = 3%nat.
Proof.
  split; [lia |]. split; [lia |]. split; [discriminate |]. split; [simpl; lia |].
  split; [| reflexivity].
  apply (cnot_is_basis_permutation 2 0 1 1); simpl; try lia; discriminate.
Defined.

(* ================================================================= *)
(** ** Runs of the script *)

Lemma palette_unclicked (lib : list (string * GateInfo)) (c : Click) (sel : option string) :
  (forall i, c <> ClickPalette i) -> palette lib c sel = sel.
Proof.
  intros Hc; unfold palette.
  induction (enumerate lib) as [| item l IH]; simpl; [reflexivity |].
  destruct c; try exact IH.
  exfalso; eapply Hc; reflexivity.
Qed.

Lemma slider_in_range (lo hi value : nat) (chosen : option (SliderPos lo hi)) (n : nat) :
  slider lo hi value chosen = Returned n -> in_range lo hi n = true.
Proof.
  unfold slider; destruct chosen as [p |].
  - intros E; injection E as <-; apply pos_ok.
  - destruct (in_range lo hi value) eqn:Hr; intros E; [injection E as <-; exact Hr | discriminate].
Qed.

(** Read again with its own result as the default, the slider returns
    the same value. *)
Lemma slider_stable (lo hi value : nat) (chosen : option (SliderPos lo hi)) (n : nat) :
  slider lo hi value chosen = Returned n -> slider lo hi n chosen = Returned n.
Proof.
  intros E; pose proof (slider_in_range _ _ _ _ _ E) as Hr.
  unfold slider in *; destruct chosen; [exact E | rewrite Hr; reflexivity].
Qed.

Lemma slider_returns (lo hi value : nat) (chosen : option (SliderPos lo hi)) :
  in_range lo hi value = true -> exists n, slider lo hi value chosen = Returned n.
Proof.
  intros Hr; unfold slider; destruct chosen; [eexists; reflexivity |].
  rewrite Hr; eexists; reflexivity.
Qed.

(** The placements after one pass: those before it, or none. *)
Lemma script_pass_placements (st : AppState) (inp : UserInput) :
  placements_of (fst (script_pass st inp)) = placements_of st \/
  placements_of (fst (script_pass st inp)) = [].
Proof.
  unfold script_pass, placements_of.
  destruct (slider 1 8 _ (slider_choice inp)); [| left; reflexivity].
  destruct (clicked inp); simpl; auto.
  destruct (execute_circuit _ _); simpl; auto.
Qed.

Lemma script_pass_qubit_count (st : AppState) (inp : UserInput) :
  qubit_count_ok st -> qubit_count_ok (fst (script_pass st inp)).
Proof.
  unfold qubit_count_ok, script_pass; intros Hok.
  destruct (slider 1 8 _ (slider_choice inp)) as [n1 | e] eqn:Hs.
  - apply slider_in_range in Hs.
    destruct (clicked inp); simpl; auto.
    destruct (execute_circuit _ _); simpl; auto.
  - simpl; destruct (num_qubits (session_state st)); [exact Hok | reflexivity].
Qed.


Lemma run_script_placements (st : AppState) (inp : UserInput) :
  placements_of (fst (run_script st inp)) = placements_of st \/
  placements_of (fst (run_script st inp)) = [].
Proof.
  unfold run_script.
  pose proof (script_pass_placements st inp) as H1.
  destruct (script_pass st inp) as [st' e]; simpl in H1.
  destruct e; simpl; auto.
  destruct (script_pass_placements st' {| slider_choice := slider_choice inp; clicked := NoClick |})
    as [H2 | H2]; rewrite H2; auto.
Qed.

Lemma run_script_qubit_count (st : AppState) (inp : UserInput) :
  qubit_count_ok st -> qubit_count_ok (fst (run_script st inp)).
Proof.
  intros Hok; unfold run_script.
  pose proof (script_pass_qubit_count st inp Hok) as H1.
  destruct (script_pass st inp) as [st' e]; simpl in H1.
  destruct e; simpl; auto.
  apply script_pass_qubit_count; exact H1.
Qed.


Lemma run_session_snoc (inputs : list UserInput) (inp : UserInput) (st : AppState) :
  run_session (inputs ++ [inp]) st = fst (run_script (run_session inputs st) inp).
Proof. unfold run_session; rewrite fold_left_app; reflexivity. Qed.

Lemma run_session_qubit_count (inputs : list UserInput) (st : AppState) :
  qubit_count_ok st -> qubit_count_ok (run_session inputs st).
Proof.
  intros Hok; induction inputs as [| inp inputs IH] using rev_ind; [exact Hok |].
  rewrite run_session_snoc; apply run_script_qubit_count, IH.
Qed.

Lemma run_session_placements (inputs : list UserInput) (st : AppState) :
  placements_of st = [] -> placements_of (run_session inputs st) = [].
Proof.
  intros Hst; induction inputs as [| inp inputs IH] using rev_ind; [exact Hst |].
  rewrite run_session_snoc.
  destruct (run_script_placements (run_session inputs st) inp) as [E | E]; rewrite E; auto.
Qed.

(** ** The qubit count *)


(** ** Placements are never added *)

(** C9: [place_gate] returns without changing anything, for every input;
    a run of the script leaves the placements as they were or clears
    them; and from a fresh session the circuit is empty after every
    sequence of interactions. *)
Theorem circuit_never_grows :
  (forall q time kind st, place_gate q time kind st = (Returned tt, st)) /\
  (forall st inp,
      placements_of (fst (run_script st inp)) = placements_of st \/
      placements_of (fst (run_script st inp)) = []) /\
  (forall inputs, placements_of (run_session inputs initial_state) = []).
Proof.
  split; [reflexivity |].
  split; [apply run_script_placements |].
  intros inputs; apply run_session_placements; reflexivity.
Qed.

(** ** Reset *)

Lemma default_qubit_count_in_range (st : AppState) :
  qubit_count_ok st ->
  in_range 1 8 (match num_qubits (session_state st) with Some n => n | None => 2%nat end) = true.
Proof.
  unfold qubit_count_ok; destruct (num_qubits (session_state st)); [auto | reflexivity].
Qed.



(* ================================================================= *)
(** * Further properties of the program *)

(** ** The handler's loop *)

Lemma apply_placement_returned (n : nat) (p : Placement) (qc qc' : Qiskit.QuantumCircuit) :
  Qiskit.qc_num_qubits qc = n -> apply_placement p qc = Returned qc' ->
  exists ins,
    qc' = {| Qiskit.qc_num_qubits := n; Qiskit.qc_data := Qiskit.qc_data qc ++ [ins] |}
    /\ well_formed n ins.
Proof.
  intros Hn; unfold apply_placement.
  destruct (String.eqb (gate_type p) "CNOT").
  - destruct (target p) as [t |]; [| discriminate].
    unfold Qiskit.cx; rewrite Hn.
    destruct ((qubit p <? n)%nat && (t <? n)%nat && negb (qubit p =? t)%nat) eqn:Hv;
      [| discriminate].
    intros E; injection E as <-.
    apply andb_prop in Hv; destruct Hv as [Hv Hne].
    apply andb_prop in Hv; destruct Hv as [Hq Ht].
    apply Nat.ltb_lt in Hq, Ht.
    apply negb_true_iff, Nat.eqb_neq in Hne.
    eexists; split; [reflexivity | simpl; auto].
  - destruct (Qiskit.method (lower (gate_type p))) as [m |] eqn:Hm; [| discriminate].
    destruct (standard_gate_unitary _ _ Hm) as (U & -> & Hshape & HU).
    unfold Qiskit.append1; rewrite Hn.
    destruct (qubit p <? n)%nat eqn:Hq; [| discriminate].
    intros E; injection E as <-.
    apply Nat.ltb_lt in Hq.
    eexists; split; [reflexivity | simpl; auto].
Qed.

Lemma apply_gates_returned (n : nat) (cd : list Placement) :
  forall qc qc', Qiskit.qc_num_qubits qc = n -> apply_gates cd qc = Returned qc' ->
  exists l,
    qc' = {| Qiskit.qc_num_qubits := n; Qiskit.qc_data := Qiskit.qc_data qc ++ l |}
    /\ Forall (well_formed n) l /\ List.length l = List.length cd.
Proof.
  induction cd as [| p cd IH]; simpl; intros qc qc' Hn E.
  - injection E as <-; exists []; rewrite app_nil_r.
    destruct qc; simpl in *; subst; auto.
  - destruct (apply_placement p qc) as [qc1 |] eqn:Hp; simpl in E; [| discriminate].
    destruct (apply_placement_returned n p qc qc1 Hn Hp) as (ins & -> & Hins).
    destruct (IH _ _ (eq_refl : Qiskit.qc_num_qubits
                        {| Qiskit.qc_num_qubits := n;
                           Qiskit.qc_data := Qiskit.qc_data qc ++ [ins] |} = n) E)
      as (l & -> & Hl & Hlen); simpl.
    exists (ins :: l); rewrite <- app_assoc; simpl; auto.
Qed.

Lemma apply_gates_app (l1 l2 : list Placement) (qc : Qiskit.QuantumCircuit) :
  apply_gates (l1 ++ l2) qc = bind (apply_gates l1 qc) (apply_gates l2).
Proof.
  revert qc; induction l1 as [| p l1 IH]; intros qc; simpl; [reflexivity |].
  destruct (apply_placement p qc); simpl; [apply IH | reflexivity].
Qed.

(** What a placement does to a circuit does not depend on the
    instructions the circuit already holds. *)
Lemma apply_placement_from (n : nat) (p : Placement) (d : list Qiskit.Instruction) :
  apply_placement p {| Qiskit.qc_num_qubits := n; Qiskit.qc_data := d |} =
  match apply_placement p (Qiskit.new_circuit n) with
  | Returned q => Returned {| Qiskit.qc_num_qubits := n;
                              Qiskit.qc_data := d ++ Qiskit.qc_data q |}
  | Raised e => Raised e
  end.
Proof.
  unfold apply_placement.
  destruct (String.eqb (gate_type p) "CNOT").
  - destruct (target p) as [t |]; [| reflexivity].
    unfold Qiskit.cx; simpl.
    destruct ((qubit p <? n)%nat && (t <? n)%nat && negb (qubit p =? t)%nat); reflexivity.
  - destruct (Qiskit.method (lower (gate_type p))) as [m |] eqn:Hm; [| reflexivity].
    destruct (standard_gate_unitary _ _ Hm) as (U & -> & _).
    unfold Qiskit.append1; simpl.
    destruct (qubit p <? n)%nat; reflexivity.
Qed.

Lemma apply_gates_from (n : nat) (cd : list Placement) :
  forall d,
  apply_gates cd {| Qiskit.qc_num_qubits := n; Qiskit.qc_data := d |} =
  match apply_gates cd (Qiskit.new_circuit n) with
  | Returned q => Returned {| Qiskit.qc_num_qubits := n;
                              Qiskit.qc_data := d ++ Qiskit.qc_data q |}
  | Raised e => Raised e
  end.
Proof.
  induction cd as [| p cd IH]; intros d; simpl.
  - rewrite app_nil_r; reflexivity.
  - rewrite (apply_placement_from n p d).
    destruct (apply_placement p (Qiskit.new_circuit n)) as [q1 |] eqn:Hp; simpl;
      [| reflexivity].
    destruct (apply_placement_returned n p (Qiskit.new_circuit n) q1 eq_refl Hp)
      as (ins & -> & _); simpl.
    rewrite (IH (d ++ [ins])), (IH [ins]).
    destruct (apply_gates cd (Qiskit.new_circuit n)); simpl; [| reflexivity].
    rewrite <- app_assoc; reflexivity.
Qed.

Lemma execute_circuit_success (n : nat) (cd : list Placement) (sv : list C) :
  execute_circuit n cd = Success sv ->
  cd <> [] /\
  exists qc, apply_gates cd (Qiskit.new_circuit n) = Returned qc /\
             Qiskit.qc_num_qubits qc = n /\ sv = Qiskit.get_statevector qc.
Proof.
  unfold execute_circuit; destruct cd as [| p cd]; [discriminate |].
  destruct (apply_gates (p :: cd) (Qiskit.new_circuit n)) as [qc |] eqn:E; [| discriminate].
  intros Hs; injection Hs as <-.
  split; [discriminate |]; exists qc; split; [reflexivity |].
  destruct (apply_gates_returned n _ (Qiskit.new_circuit n) qc eq_refl E) as (l & -> & _).
  split; reflexivity.
Qed.

Lemma execute_circuit_nonempty (n : nat) (cd : list Placement) :
  cd <> [] ->
  execute_circuit n cd =
  match apply_gates cd (Qiskit.new_circuit n) with
  | Returned qc => Success (Qiskit.get_statevector qc)
  | Raised e => Failed e
  end.
Proof. destruct cd; [contradiction | reflexivity]. Qed.

(** X2: executing one circuit after another.  When the handler returns
    [v1] for [cd1] and succeeds on [cd2], it returns for [cd1 ++ cd2]
    the vector that the instructions of [cd2] make of [v1]. *)
Theorem execute_concatenation (n : nat) (cd1 cd2 : list Placement) (v1 v2 : list C) :
  execute_circuit n cd1 = Success v1 ->
  execute_circuit n cd2 = Success v2 ->
  exists qc2,
    apply_gates cd2 (Qiskit.new_circuit n) = Returned qc2 /\
    v2 = Qiskit.run_instructions (Qiskit.qc_data qc2) (Qiskit.zero_state n) /\
    execute_circuit n (cd1 ++ cd2) =
      Success (Qiskit.run_instructions (Qiskit.qc_data qc2) v1).
Proof.
  intros H1 H2.
  destruct (execute_circuit_success n cd1 v1 H1) as (Hne1 & qc1 & E1 & Hn1 & ->).
  destruct (execute_circuit_success n cd2 v2 H2) as (_ & qc2 & E2 & Hn2 & ->).
  exists qc2; split; [exact E2 |].
  split; [unfold Qiskit.get_statevector; rewrite Hn2; reflexivity |].
  rewrite execute_circuit_nonempty by (destruct cd1; [contradiction | discriminate]).
  rewrite apply_gates_app, E1; simpl.
  destruct qc1 as [n1 d1]; simpl in Hn1; subst n1.
  rewrite apply_gates_from, E2.
  unfold Qiskit.get_statevector, Qiskit.run_instructions; simpl.
  rewrite fold_left_app; reflexivity.
Qed.

Lemma execute_concatenation_witness :
  execute_circuit 2 ([single "H" 0] ++ [single "X" 1]) =
  Success (Qiskit.run_instructions [Qiskit.Gate1 Qiskit.XGate 1]
             (Qiskit.get_statevector
                {| Qiskit.qc_num_qubits := 2;
                   Qiskit.qc_data := [Qiskit.Gate1 Qiskit.HGate 0] |})).
Proof.
  destruct (execute_concatenation 2 [single "H" 0] [single "X" 1] _ _ eq_refl eq_refl)
    as (qc2 & E2 & _ & E).
  injection E2 as <-; exact E.
Defined.

(** X3: the handler stops at the first failure.  When it fails on [cd1]
    it fails the same way on [cd1 ++ cd2], whatever follows; when it
    succeeds on [cd1] and fails on [cd2], it fails on [cd1 ++ cd2] with
    the error of [cd2]; no state vector is returned either way. *)
Theorem execute_fails_fast (n : nat) (cd1 cd2 : list Placement) (e : exn) :
  (execute_circuit n cd1 = Failed e -> execute_circuit n (cd1 ++ cd2) = Failed e) /\
  ((exists v1, execute_circuit n cd1 = Success v1) -> execute_circuit n cd2 = Failed e ->
   execute_circuit n (cd1 ++ cd2) = Failed e).
Proof.
  split.
  - destruct cd1 as [| p cd1]; [discriminate |].
    intros H; rewrite execute_circuit_nonempty in H by discriminate.
    rewrite execute_circuit_nonempty by discriminate.
    rewrite apply_gates_app.
    destruct (apply_gates (p :: cd1) (Qiskit.new_circuit n)); [discriminate |].
    injection H as ->; reflexivity.
  - intros [v1 H1] H2.
    destruct (execute_circuit_success n cd1 v1 H1) as (Hne1 & qc1 & E1 & Hn1 & ->).
    destruct cd2 as [| p2 cd2]; [discriminate |].
    rewrite execute_circuit_nonempty in H2 by discriminate.
    rewrite execute_circuit_nonempty by (destruct cd1; [contradiction | discriminate]).
    rewrite apply_gates_app, E1; unfold bind.
    destruct qc1 as [n1 d1]; simpl in Hn1; subst n1.
    rewrite (apply_gates_from n (p2 :: cd2) d1).
    destruct (apply_gates (p2 :: cd2) (Qiskit.new_circuit n)); [discriminate |].
    injection H2 as ->; reflexivity.
Qed.

Lemma execute_fails_fast_witness :
  execute_circuit 2 [single "X" 5] = Failed CircuitError /\
  execute_circuit 2 ([single "X" 5] ++ [single "H" 0]) = Failed CircuitError.
Proof.
  split; [reflexivity |].
  apply (proj1 (execute_fails_fast 2 [single "X" 5] [single "H" 0] CircuitError)).
  reflexivity.
Defined.

(** ** Placements the handler refuses *)

Lemma apply_placement_index_error (n : nat) (p : Placement) (qc : Qiskit.QuantumCircuit) :
  Qiskit.qc_num_qubits qc = n ->
  (In (gate_type p) single_qubit_kinds /\ (n <= qubit p)%nat) \/
  (gate_type p = "CNOT"%string /\
   exists t, target p = Some t /\ ((n <= qubit p)%nat \/ (n <= t)%nat \/ qubit p = t)) ->
  apply_placement p qc = Raised CircuitError.
Proof.
  intros Hn [[Hk Hq] | [Hk (t & Ht & Hbad)]]; destruct p as [gt q tg]; simpl in *.
  - apply Nat.ltb_ge in Hq.
    destruct (single_qubit_kind_cases gt Hk) as [E|[E|[E|[E|[E|[E|E]]]]]]; subst gt;
      unfold apply_placement; simpl; unfold Qiskit.append1; rewrite Hn, Hq; reflexivity.
  - subst gt tg; unfold apply_placement, Qiskit.cx; simpl; rewrite Hn.
    replace ((q <? n)%nat && (t <? n)%nat && negb (q =? t)%nat) with false; [reflexivity |].
    symmetry; destruct Hbad as [H | [H | H]].
    + apply Nat.ltb_ge in H; rewrite H; reflexivity.
    + apply Nat.ltb_ge in H; rewrite H, andb_false_r; reflexivity.
    + apply Nat.eqb_eq in H; rewrite H, andb_false_r; reflexivity.
Qed.

Lemma execute_fails_at (n : nat) (l1 l2 : list Placement) (p : Placement) (e : exn) :
  forallb (valid_placement n) l1 = true ->
  (forall qc, Qiskit.qc_num_qubits qc = n -> apply_placement p qc = Raised e) ->
  execute_circuit n (l1 ++ p :: l2) = Failed e.
Proof.
  intros Hv Hp.
  rewrite execute_circuit_nonempty by (destruct l1; discriminate).
  rewrite apply_gates_app.
  destruct (apply_gates_valid n l1 Hv (Qiskit.new_circuit n) eq_refl) as (l & -> & _).
  simpl; rewrite Hp by reflexivity; reflexivity.
Qed.

(** X4: a qubit index outside the circuit is refused.  After any valid
    placements, a single-qubit gate of the table on a qubit [>= n], or a
    CNOT whose control or target is [>= n] or whose control equals its
    target, makes the handler fail with Qiskit's [CircuitError], whatever
    placements follow; no vector is returned and nothing is clamped. *)
Theorem execute_refuses_bad_index (n : nat) (l1 l2 : list Placement) (p : Placement) :
  forallb (valid_placement n) l1 = true ->
  (In (gate_type p) single_qubit_kinds /\ (n <= qubit p)%nat) \/
  (gate_type p = "CNOT"%string /\
   exists t, target p = Some t /\ ((n <= qubit p)%nat \/ (n <= t)%nat \/ qubit p = t)) ->
  execute_circuit n (l1 ++ p :: l2) = Failed CircuitError.
Proof.
  intros Hv Hbad; apply execute_fails_at; [exact Hv |].
  intros qc Hn; apply apply_placement_index_error with (n := n); assumption.
Qed.

Lemma execute_refuses_bad_index_witness :
  execute_circuit 2
    (bell_circuit ++ {| gate_type := "CNOT"; qubit := 1; target := Some 1%nat |} :: x_circuit)
  = Failed CircuitError.
Proof.
  apply execute_refuses_bad_index; [reflexivity |].
  right; split; [reflexivity |].
  exists 1%nat; split; [reflexivity | right; right; reflexivity].
Defined.

(** X5: a CNOT placement that has no ['target'] key makes the handler
    fail with [KeyError], after any valid placements and whatever
    follows, also when its control index is out of range. *)
Theorem execute_cnot_without_target (n : nat) (l1 l2 : list Placement) (p : Placement) :
  forallb (valid_placement n) l1 = true ->
  gate_type p = "CNOT"%string -> target p = None ->
  execute_circuit n (l1 ++ p :: l2) = Failed KeyError.
Proof.
  intros Hv Hk Ht; apply execute_fails_at; [exact Hv |].
  intros qc _; unfold apply_placement; rewrite Hk, Ht; reflexivity.
Qed.

Lemma execute_cnot_without_target_witness :
  execute_circuit 2 ([] ++ {| gate_type := "CNOT"; qubit := 7; target := None |} :: x_circuit)
  = Failed KeyError.
Proof. apply execute_cnot_without_target; reflexivity. Defined.

(* ================================================================= *)
(** ** The script as a whole *)

(** The palette loop selects the key of the button that was pressed, if
    there is such a button. *)
Lemma palette_loop_from (lib : list (string * GateInfo)) (i : nat) :
  forall (s : nat) (sel : option string),
  fold_left (fun sel item => if (i =? fst item)%nat then Some (fst (snd item)) else sel)
            (combine (seq s (List.length lib)) lib) sel =
  if (i <? s)%nat then sel
  else match nth_error lib (i - s) with
       | Some item => Some (fst item)
       | None => sel
       end.
Proof.
  induction lib as [| x lib IH]; intros s sel; simpl.
  - destruct (i <? s)%nat; [reflexivity |]; destruct (i - s)%nat; reflexivity.
  - rewrite IH.
    destruct (Nat.ltb_spec i s) as [Hlt | Hge].
    + destruct (Nat.eqb_spec i s); [lia |].
      destruct (Nat.ltb_spec i (S s)); [reflexivity | lia].
    + destruct (Nat.eqb_spec i s) as [-> | Hne].
      * destruct (Nat.ltb_spec s (S s)); [| lia].
        rewrite Nat.sub_diag; reflexivity.
      * destruct (Nat.ltb_spec i (S s)); [lia |].
        replace (i - s)%nat with (S (i - S s)) by lia; reflexivity.
Qed.

Lemma palette_clicked (lib : list (string * GateInfo)) (i : nat) (sel : option string) :
  palette lib (ClickPalette i) sel =
  match nth_error lib i with
  | Some item => Some (fst item)
  | None => sel
  end.
Proof.
  unfold palette, enumerate; rewrite (palette_loop_from lib i 0 sel).
  simpl; rewrite Nat.sub_0_r; reflexivity.
Qed.

(** A run in which nothing is touched leaves a state with all keys set
    as it is. *)
Lemma idle_run_fixed (n : nat) (cd : list Placement) (sel : option string) :
  fst (run_script {| gate_library := GATE_MATRICES;
                     session_state := {| num_qubits := Some n; circuit_data := Some cd;
                                         selected_gate := sel |} |} idle) =
  {| gate_library := GATE_MATRICES;
     session_state := {| num_qubits := Some n; circuit_data := Some cd;
                         selected_gate := sel |} |}.
Proof.
  unfold run_script, script_pass, idle, slider; simpl.
  destruct (in_range 1 8 n); simpl; [| reflexivity].
  rewrite palette_unclicked by discriminate; reflexivity.
Qed.

Lemma script_pass_shape (st : AppState) (inp : UserInput) :
  exists n cd sel,
    fst (script_pass st inp) =
    {| gate_library := GATE_MATRICES;
       session_state := {| num_qubits := Some n; circuit_data := Some cd;
                           selected_gate := sel |} |}.
Proof.
  unfold script_pass.
  destruct (slider 1 8 _ (slider_choice inp)); [| do 3 eexists; reflexivity].
  destruct (clicked inp); simpl; try (do 3 eexists; reflexivity).
  destruct (execute_circuit _ _); simpl; do 3 eexists; reflexivity.
Qed.

Lemma run_script_shape (st : AppState) (inp : UserInput) :
  exists n cd sel,
    fst (run_script st inp) =
    {| gate_library := GATE_MATRICES;
       session_state := {| num_qubits := Some n; circuit_data := Some cd;
                           selected_gate := sel |} |}.
Proof.
  unfold run_script.
  pose proof (script_pass_shape st inp) as H1.
  destruct (script_pass st inp) as [st' e]; simpl in H1.
  destruct e; simpl; auto.
  apply script_pass_shape.
Qed.

(** X6: every run of the script, from whatever state and with whatever
    input, ends with the gate table in place and the keys [num_qubits]
    and [circuit_data] present in the session state; and running the
    script again with nothing touched changes nothing. *)
Theorem run_script_settles (st : AppState) (inp : UserInput) :
  gate_library (fst (run_script st inp)) = GATE_MATRICES /\
  num_qubits (session_state (fst (run_script st inp))) <> None /\
  circuit_data (session_state (fst (run_script st inp))) <> None /\
  fst (run_script (fst (run_script st inp)) idle) = fst (run_script st inp).
Proof.
  destruct (run_script_shape st inp) as (n & cd & sel & ->); simpl.
  repeat split; try discriminate.
  apply idle_run_fixed.
Qed.

(** X7: the "Execute Circuit" handler only reads the session state.  A
    run in which Execute is pressed ends in the same state as the run in
    which nothing is pressed, whether the handler warns, fails or returns
    a vector. *)
Theorem execute_leaves_state (st : AppState) (choice : option (SliderPos 1 8)) :
  fst (run_script st {| slider_choice := choice; clicked := ClickExecute |}) =
  fst (run_script st {| slider_choice := choice; clicked := NoClick |}).
Proof.
  unfold run_script, script_pass; simpl.
  destruct (slider 1 8 _ choice); simpl; [| reflexivity].
  rewrite !palette_unclicked by discriminate.
  destruct (execute_circuit _ _); reflexivity.
Qed.

(** X8: a position chosen on the slider is stored as the qubit count by
    the run, whatever the state before and whichever button is pressed
    in the same run. *)
Theorem slider_choice_is_stored (st : AppState) (p : SliderPos 1 8) (c : Click) :
  num_qubits (session_state (fst (run_script st {| slider_choice := Some p; clicked := c |})))
  = Some (pos p) /\
  (1 <= pos p <= 8)%nat.
Proof.
  split.
  - unfold run_script, script_pass; simpl.
    destruct c; simpl; try reflexivity.
    destruct (execute_circuit _ _); reflexivity.
  - pose proof (pos_ok p) as H; unfold in_range in H.
    apply andb_prop in H; destruct H as [H1 H2].
    apply Nat.leb_le in H1, H2; lia.
Qed.

(** How a run ends in a state whose qubit count is fine and whose
    circuit is empty. *)
Lemma run_script_end_empty (st : AppState) (inp : UserInput) :
  qubit_count_ok st -> placements_of st = [] ->
  snd (run_script st inp) =
  match clicked inp with
  | ClickExecute => Finished (Some (Warning "Please add some gates to the circuit first!"))
  | _ => Finished None
  end.
Proof.
  intros Hok Hcd.
  destruct (slider_returns 1 8 _ (slider_choice inp) (default_qubit_count_in_range st Hok))
    as [n1 Hs].
  pose proof (slider_stable _ _ _ _ _ Hs) as Hs'.
  unfold placements_of in Hcd.
  unfold run_script, script_pass; rewrite Hs, Hcd.
  destruct (clicked inp); simpl; try reflexivity.
  rewrite Hs'; reflexivity.
Qed.

(** X9: in a session that starts fresh, no run of the script ever
    simulates a circuit or raises an exception.  A run in which Execute
    is pressed ends with the warning "Please add some gates to the
    circuit first!"; every other run ends normally with no result. *)
Theorem session_never_simulates (inputs : list UserInput) (inp : UserInput) :
  snd (run_script (run_session inputs initial_state) inp) =
  match clicked inp with
  | ClickExecute => Finished (Some (Warning "Please add some gates to the circuit first!"))
  | _ => Finished None
  end.
Proof.
  apply run_script_end_empty.
  - apply run_session_qubit_count; exact I.
  - apply run_session_placements; reflexivity.
Qed.

Lemma run_script_palette (st : AppState) (choice : option (SliderPos 1 8)) (i : nat) :
  qubit_count_ok st ->
  fst (run_script st {| slider_choice := choice; clicked := ClickPalette i |}) =
  with_selected_gate
    (match nth_error GATE_MATRICES i with
     | Some item => Some (fst item)
     | None => selected_gate (session_state st)
     end)
    (fst (run_script st {| slider_choice := choice; clicked := NoClick |})).
Proof.
  intros Hok.
  destruct (slider_returns 1 8 _ choice (default_qubit_count_in_range st Hok)) as [n1 Hs].
  unfold run_script, script_pass; simpl; rewrite Hs; simpl.
  rewrite palette_clicked, palette_unclicked by discriminate.
  reflexivity.
Qed.

(** X10: pressing the [i]-th button of the palette selects the [i]-th
    key of the gate table and changes nothing else.  In every state a
    session can reach, the run ends in the state of the run with nothing
    pressed, but for [selected_gate], which is the key at position [i]
    (unchanged when the table has no such position). *)
Theorem palette_click_selects_key (inputs : list UserInput)
        (choice : option (SliderPos 1 8)) (i : nat) :
  fst (run_script (run_session inputs initial_state)
                  {| slider_choice := choice; clicked := ClickPalette i |}) =
  with_selected_gate
    (match nth_error GATE_MATRICES i with
     | Some item => Some (fst item)
     | None => selected_gate (session_state (run_session inputs initial_state))
     end)
    (fst (run_script (run_session inputs initial_state)
                     {| slider_choice := choice; clicked := NoClick |})).
Proof. apply run_script_palette, run_session_qubit_count; exact I. Qed.

Lemma script_pass_selected (st : AppState) (inp : UserInput) :
  selected_gate (session_state (fst (script_pass st inp))) = selected_gate (session_state st) \/
  exists k, In k (map fst GATE_MATRICES) /\
            selected_gate (session_state (fst (script_pass st inp))) = Some k.
Proof.
  unfold script_pass.
  destruct (slider 1 8 _ (slider_choice inp)); [| left; reflexivity].
  destruct (clicked inp) as [| | i |]; simpl.
  - left; apply palette_unclicked; discriminate.
  - left; reflexivity.
  - rewrite palette_clicked.
    destruct (nth_error GATE_MATRICES i) as [item |] eqn:E; [| left; reflexivity].
    right; exists (fst item); split; [| reflexivity].
    exact (in_map fst GATE_MATRICES item (nth_error_In _ _ E)).
  - left; destruct (execute_circuit _ _); simpl; apply palette_unclicked; discriminate.
Qed.

Lemma run_script_selected (st : AppState) (inp : UserInput) :
  selected_gate (session_state (fst (run_script st inp))) = selected_gate (session_state st) \/
  exists k, In k (map fst GATE_MATRICES) /\
            selected_gate (session_state (fst (run_script st inp))) = Some k.
Proof.
  unfold run_script.
  pose proof (script_pass_selected st inp) as H1.
  destruct (script_pass st inp) as [st' e]; simpl in H1.
  destruct e; simpl; auto.
  destruct (script_pass_selected st' {| slider_choice := slider_choice inp; clicked := NoClick |})
    as [H2 | H2]; [rewrite H2; exact H1 | right; exact H2].
Qed.

(** X11: the selected gate is always a gate of the table.  After every
    sequence of interactions from a fresh session, [selected_gate] is
    absent or one of the keys of [GATE_MATRICES]; no run removes it once
    it is set. *)
Theorem selected_gate_is_a_key (inputs : list UserInput) :
  match selected_gate (session_state (run_session inputs initial_state)) with
  | Some k => In k (map fst GATE_MATRICES)
  | None => True
  end /\
  (forall inp,
      selected_gate (session_state (run_session inputs initial_state)) <> None ->
      selected_gate (session_state (run_session (inputs ++ [inp]) initial_state)) <> None).
Proof.
  split.
  - induction inputs as [| inp inputs IH] using rev_ind; [exact I |].
    rewrite run_session_snoc.
    destruct (run_script_selected (run_session inputs initial_state) inp) as [E | (k & Hk & E)];
      rewrite E; [exact IH | exact Hk].
  - intros inp Hset; rewrite run_session_snoc.
    destruct (run_script_selected (run_session inputs initial_state) inp) as [E | (k & Hk & E)];
      rewrite E; [exact Hset | discriminate].
Qed.

(* ================================================================= *)
(** ** The gate table, once more *)

(** X12: the table stores a matrix for the seven single-qubit kinds and
    for nothing else: a lookup gives a matrix exactly when the kind is
    one of I, X, Y, Z, H, S, T; and the lookup of a key finds an entry
    exactly when the key is one of the eight keys of the table. *)
Theorem gate_matrix_defined_iff (kind : string) :
  (gate_matrix GATE_MATRICES kind <> None <-> In kind single_qubit_kinds) /\
  (dict_get kind GATE_MATRICES <> None <-> In kind (map fst GATE_MATRICES)).
Proof.
  split; split.
  - unfold gate_matrix, GATE_MATRICES, dict_get, single_qubit_kinds.
    repeat match goal with
           | |- context [String.eqb kind ?k] =>
               let E := fresh "E" in
               destruct (String.eqb kind k) eqn:E;
               [apply String.eqb_eq in E; subst kind; simpl; tauto |]
           end.
    intros H; exfalso; apply H; reflexivity.
  - intros Hin.
    destruct (single_qubit_kind_cases kind Hin) as [E|[E|[E|[E|[E|[E|E]]]]]]; subst kind;
      discriminate.
  - unfold GATE_MATRICES, dict_get.
    repeat match goal with
           | |- context [String.eqb kind ?k] =>
               let E := fresh "E" in
               destruct (String.eqb kind k) eqn:E;
               [apply String.eqb_eq in E; subst kind; simpl; tauto |]
           end.
    intros H; exfalso; apply H; reflexivity.
  - simpl; intros Hin.
    repeat (destruct Hin as [<- | Hin]; [discriminate |]); contradiction.
Qed.

(** ** Gate types in lower case *)

Lemma lower_ascii_idempotent (c : ascii) : lower_ascii (lower_ascii c) = lower_ascii c.
Proof. destruct c as [[] [] [] [] [] [] [] []]; reflexivity. Qed.

Lemma lower_idempotent (s : string) : lower (lower s) = lower s.
Proof.
  induction s as [| c s IH]; simpl; [reflexivity |].
  rewrite lower_ascii_idempotent, IH; reflexivity.
Qed.

Lemma lower_is_not_CNOT (s : string) : String.eqb (lower s) "CNOT" = false.
Proof.
  destruct s as [| c s]; [reflexivity |].
  apply String.eqb_neq; simpl; intros E; injection E as Ec _.
  destruct c as [[] [] [] [] [] [] [] []]; discriminate Ec.
Qed.

Lemma apply_placement_lower_type (p : Placement) (qc : Qiskit.QuantumCircuit) :
  gate_type p <> "CNOT"%string ->
  apply_placement (lower_type p) qc = apply_placement p qc.
Proof.
  intros Hne; apply String.eqb_neq in Hne.
  unfold apply_placement, lower_type; simpl.
  rewrite Hne, lower_is_not_CNOT, lower_idempotent; reflexivity.
Qed.

(** X14: single-qubit gate types are matched without regard to case.
    For a circuit with no placement of type "CNOT", the handler gives
    the same outcome (warning, failure or vector) when every gate type
    is put in lower case. *)
Theorem execute_ignores_case (n : nat) (cd : list Placement) :
  (forall p, In p cd -> gate_type p <> "CNOT"%string) ->
  execute_circuit n (map lower_type cd) = execute_circuit n cd.
Proof.
  intros Hne.
  assert (E : forall qc, apply_gates (map lower_type cd) qc = apply_gates cd qc).
  { induction cd as [| p cd IH]; intros qc; simpl; [reflexivity |].
    rewrite apply_placement_lower_type by (apply Hne; left; reflexivity).
    destruct (apply_placement p qc); simpl; [| reflexivity].
    apply IH; intros p' Hp'; apply Hne; right; exact Hp'. }
  destruct cd as [| p cd]; [reflexivity |].
  unfold execute_circuit; simpl map.
  rewrite <- (E (Qiskit.new_circuit n)); reflexivity.
Qed.

Lemma execute_ignores_case_witness :
  execute_circuit 2 (map lower_type [single "H" 0; single "X" 1]) =
  execute_circuit 2 [single "H" 0; single "X" 1].
Proof.
  apply execute_ignores_case.
  intros p [<- | [<- | []]]; discriminate.
Defined.

(* ================================================================= *)
(** ** How gates compose *)

Lemma amp_apply_gate (U : Matrix) (q : nat) (v : list C) (j : nat) :
  (j < List.length v)%nat ->
  Qiskit.amp (Qiskit.apply_gate U q v) j =
  if Nat.testbit j q
  then Cadd (Cmul (entry U 1 0) (Qiskit.amp v (Qiskit.partner q j)))
            (Cmul (entry U 1 1) (Qiskit.amp v j))
  else Cadd (Cmul (entry U 0 0) (Qiskit.amp v j))
            (Cmul (entry U 0 1) (Qiskit.amp v (Qiskit.partner q j))).
Proof.
  intros Hj; unfold Qiskit.amp at 1, Qiskit.apply_gate.
  rewrite nth_map_seq by exact Hj; reflexivity.
Qed.

(** Two gates on the same qubit act as their matrix product. *)
Lemma apply_gate_compose (n q : nat) (a b c d a' b' c' d' : C) (v : list C) :
  List.length v = (2 ^ n)%nat -> (q < n)%nat ->
  Qiskit.apply_gate [[a; b]; [c; d]] q (Qiskit.apply_gate [[a'; b']; [c'; d']] q v) =
  Qiskit.apply_gate (matmul [[a; b]; [c; d]] [[a'; b']; [c'; d']]) q v.
Proof.
  intros Hlen Hq.
  unfold Qiskit.apply_gate at 1 3.
  rewrite apply_gate_length, Hlen.
  apply map_ext_in; intros j Hj; apply in_seq in Hj.
  assert (Hj' : (j < List.length v)%nat) by lia.
  assert (Hp : (Qiskit.partner q j < List.length v)%nat)
    by (rewrite Hlen; apply partner_lt; [exact Hq | lia]).
  rewrite !amp_apply_gate by assumption.
  rewrite partner_testbit_same, partner_involutive.
  unfold entry; simpl.
  destruct (Nat.testbit j q); simpl;
    unfold dot, Csum, column; simpl; unfold Cadd, Cmul, Czero, RtoC; simpl;
    apply C_eq; simpl; ring.
Qed.

Lemma apply_gate_identity (q : nat) (v : list C) :
  Qiskit.apply_gate (identity 2) q v = v.
Proof.
  rewrite <- (map_amp_seq v) at 2.
  unfold Qiskit.apply_gate; apply map_ext; intros j.
  unfold entry; simpl.
  destruct (Nat.testbit j q); unfold Cadd, Cmul, Cone, Czero, RtoC; simpl;
    apply C_eq; simpl; ring.
Qed.

(** A valid circuit, then some placements that append the instructions
    [l2], then any further placements: what the handler returns. *)
Lemma execute_split (n : nat) (cd cd2 rest : list Placement) (l2 : list Qiskit.Instruction) :
  forallb (valid_placement n) cd = true -> cd ++ cd2 ++ rest <> [] ->
  (forall d, apply_gates cd2 {| Qiskit.qc_num_qubits := n; Qiskit.qc_data := d |} =
             Returned {| Qiskit.qc_num_qubits := n; Qiskit.qc_data := d ++ l2 |}) ->
  exists l,
    apply_gates cd (Qiskit.new_circuit n) =
      Returned {| Qiskit.qc_num_qubits := n; Qiskit.qc_data := l |} /\
    Forall (well_formed n) l /\
    execute_circuit n (cd ++ cd2 ++ rest) =
    match apply_gates rest (Qiskit.new_circuit n) with
    | Returned q3 =>
        Success (Qiskit.run_instructions (Qiskit.qc_data q3)
                   (Qiskit.run_instructions l2
                      (Qiskit.run_instructions l (Qiskit.zero_state n))))
    | Raised e => Failed e
    end.
Proof.
  intros Hv Hne H2.
  destruct (apply_gates_valid n cd Hv (Qiskit.new_circuit n) eq_refl) as (l & E & Hl & _).
  simpl in E.
  exists l; split; [exact E |]; split; [exact Hl |].
  rewrite execute_circuit_nonempty by exact Hne.
  rewrite apply_gates_app, E; unfold bind.
  rewrite apply_gates_app, H2; unfold bind.
  rewrite (apply_gates_from n rest (l ++ l2)).
  destruct (apply_gates rest (Qiskit.new_circuit n)) as [q3 | e]; [| reflexivity].
  unfold Qiskit.get_statevector, Qiskit.run_instructions; simpl.
  rewrite !fold_left_app; reflexivity.
Qed.

Lemma two_placements (n : nat) (p1 p2 : Placement) (i1 i2 : Qiskit.Instruction) :
  (forall d, apply_placement p1 {| Qiskit.qc_num_qubits := n; Qiskit.qc_data := d |} =
             Returned {| Qiskit.qc_num_qubits := n; Qiskit.qc_data := d ++ [i1] |}) ->
  (forall d, apply_placement p2 {| Qiskit.qc_num_qubits := n; Qiskit.qc_data := d |} =
             Returned {| Qiskit.qc_num_qubits := n; Qiskit.qc_data := d ++ [i2] |}) ->
  forall d, apply_gates [p1; p2] {| Qiskit.qc_num_qubits := n; Qiskit.qc_data := d |} =
            Returned {| Qiskit.qc_num_qubits := n; Qiskit.qc_data := d ++ [i1; i2] |}.
Proof.
  intros H1 H2 d; simpl; rewrite H1; simpl; rewrite H2; simpl.
  rewrite <- app_assoc; reflexivity.
Qed.

Lemma no_placement (n : nat) :
  forall d, apply_gates [] {| Qiskit.qc_num_qubits := n; Qiskit.qc_data := d |} =
            Returned {| Qiskit.qc_num_qubits := n; Qiskit.qc_data := d ++ [] |}.
Proof. intros d; simpl; rewrite app_nil_r; reflexivity. Qed.

(** The instructions the seven single-qubit placements append. *)
Lemma single_placement_explicit (n q : nat) (kind : string) (U : Matrix) :
  (q < n)%nat ->
  In (kind, U) [("X"%string, Qiskit.XGate); ("Y"%string, Qiskit.YGate);
                ("Z"%string, Qiskit.ZGate); ("H"%string, Qiskit.HGate);
                ("S"%string, Qiskit.SGate); ("T"%string, Qiskit.TGate);
                ("I"%string, Qiskit.IGate)] ->
  forall d,
    apply_placement (single kind q) {| Qiskit.qc_num_qubits := n; Qiskit.qc_data := d |} =
    Returned {| Qiskit.qc_num_qubits := n; Qiskit.qc_data := d ++ [Qiskit.Gate1 U q] |}.
Proof.
  intros Hq Hin d; apply Nat.ltb_lt in Hq; simpl in Hin.
  repeat (destruct Hin as [E | Hin];
          [injection E as <- <-; unfold apply_placement, single; simpl;
           unfold Qiskit.append1; simpl; rewrite Hq; reflexivity |]).
  contradiction.
Qed.

Lemma self_inverse_gate (U : Matrix) (n q : nat) (v : list C) :
  In U [Qiskit.XGate; Qiskit.YGate; Qiskit.ZGate; Qiskit.IGate] ->
  List.length v = (2 ^ n)%nat -> (q < n)%nat ->
  Qiskit.apply_gate U q (Qiskit.apply_gate U q v) = v.
Proof.
  intros Hin Hlen Hq; simpl in Hin.
  assert (E : exists a b c d, U = [[a; b]; [c; d]] /\ matmul U U = identity 2).
  { repeat (destruct Hin as [<- | Hin];
            [do 4 eexists; split; [reflexivity |];
             unfold Qiskit.XGate, Qiskit.YGate, Qiskit.ZGate, Qiskit.IGate;
             unfold_matrices; entrywise; lra |]).
    contradiction. }
  destruct E as (a & b & c & d & -> & HUU).
  rewrite (apply_gate_compose n q) by assumption.
  rewrite HUU; apply apply_gate_identity.
Qed.

(** X16: X, Y, Z and I are their own inverse.  After a valid circuit
    that is not empty, inserting the same one of these gates twice on
    one qubit changes nothing: the handler's outcome is the one without
    the two placements, whatever placements follow. *)
Theorem execute_self_inverse_pair
        (n : nat) (cd rest : list Placement) (kind : string) (q : nat) :
  forallb (valid_placement n) cd = true -> cd <> [] ->
  In kind self_inverse_kinds -> (q < n)%nat ->
  execute_circuit n (cd ++ [single kind q; single kind q] ++ rest) =
  execute_circuit n (cd ++ rest).
Proof.
  intros Hv Hne Hk Hq.
  assert (HU : exists U,
             In U [Qiskit.XGate; Qiskit.YGate; Qiskit.ZGate; Qiskit.IGate] /\
             forall d,
               apply_placement (single kind q)
                 {| Qiskit.qc_num_qubits := n; Qiskit.qc_data := d |} =
               Returned {| Qiskit.qc_num_qubits := n;
                           Qiskit.qc_data := d ++ [Qiskit.Gate1 U q] |}).
  { unfold self_inverse_kinds in Hk; simpl in Hk.
    repeat (destruct Hk as [<- | Hk];
            [eexists; split;
             [| apply (single_placement_explicit n q); [exact Hq | simpl; tauto]];
             simpl; tauto |]).
    contradiction. }
  destruct HU as (U & HinU & E).
  destruct (execute_split n cd [single kind q; single kind q] rest _ Hv
              ltac:(destruct cd; discriminate) (two_placements n _ _ _ _ E E))
    as (l & El & Hl & ->).
  destruct (execute_split n cd [] rest _ Hv
              ltac:(destruct cd; [contradiction | discriminate]) (no_placement n))
    as (l' & El' & _ & E').
  simpl app in E'; rewrite E'.
  rewrite El in El'; injection El' as <-.
  destruct (apply_gates rest (Qiskit.new_circuit n)); [| reflexivity].
  do 2 f_equal; simpl.
  destruct (run_instructions_invariant n l Hl _ (zero_state_length n)) as [Hlen _].
  apply self_inverse_gate with (n := n); assumption.
Qed.

Lemma execute_self_inverse_pair_witness :
  execute_circuit 2 (bell_circuit ++ [single "Z" 1; single "Z" 1] ++ x_circuit) =
  execute_circuit 2 (bell_circuit ++ x_circuit).
Proof.
  apply execute_self_inverse_pair;
    try reflexivity; try discriminate; try (simpl; tauto); try lia.
Defined.

(** ** X gates and the bit convention *)

Lemma zero_state_is_basis_state (n : nat) : Qiskit.zero_state n = basis_state n 0.
Proof.
  assert (Hrest : forall m s,
             repeat Czero m
             = map (fun j => if (j =? 0)%nat then Cone else Czero) (seq (S s) m)).
  { induction m as [| m IH]; intros s; simpl; [reflexivity |].
    rewrite <- IH; reflexivity. }
  unfold Qiskit.zero_state, basis_state.
  pose proof (pow2_pos n) as Hp.
  replace (2 ^ n)%nat with (S (2 ^ n - 1)) at 2 by lia.
  simpl; f_equal; apply Hrest.
Qed.

Lemma apply_gate_X_basis_state (n q i : nat) :
  (q < n)%nat -> (i < 2 ^ n)%nat ->
  Qiskit.apply_gate Qiskit.XGate q (basis_state n i) = basis_state n (Qiskit.partner q i).
Proof.
  intros Hq Hi.
  unfold Qiskit.apply_gate; rewrite basis_state_length.
  unfold basis_state at 5; apply map_ext; intros j.
  rewrite !amp_basis_state by exact Hi.
  assert (E : (Qiskit.partner q j =? i)%nat = (j =? Qiskit.partner q i)%nat).
  { destruct (Nat.eqb_spec (Qiskit.partner q j) i) as [E | E];
      destruct (Nat.eqb_spec j (Qiskit.partner q i)) as [E' | E']; try reflexivity; exfalso.
    - apply E'; rewrite <- E, partner_involutive; reflexivity.
    - apply E; rewrite E', partner_involutive; reflexivity. }
  rewrite E; unfold entry, Qiskit.XGate; simpl.
  destruct (Nat.testbit j q), (j =? Qiskit.partner q i)%nat, (j =? i)%nat;
    unfold Cadd, Cmul, Cone, Czero, RtoC; apply C_eq; simpl; ring.
Qed.

Lemma flip_bits_lt (n : nat) (qs : list nat) :
  Forall (fun q => (q < n)%nat) qs ->
  forall i, (i < 2 ^ n)%nat -> (flip_bits qs i < 2 ^ n)%nat.
Proof.
  induction 1 as [| q qs Hq _ IH]; intros i Hi; simpl; [exact Hi |].
  apply IH, partner_lt; assumption.
Qed.

Lemma flip_bits_testbit (qs : list nat) :
  forall i k,
  Nat.testbit (flip_bits qs i) k = xorb (Nat.testbit i k) (Nat.odd (count_occ Nat.eq_dec qs k)).
Proof.
  induction qs as [| q qs IH]; intros i k; simpl.
  - destruct (Nat.testbit i k); reflexivity.
  - unfold flip_bits in IH; rewrite IH, partner_testbit.
    destruct (Nat.eq_dec q k) as [-> | Hne].
    + rewrite Nat.eqb_refl, Nat.odd_succ, <- Nat.negb_odd.
      destruct (Nat.testbit i k), (Nat.odd (count_occ Nat.eq_dec qs k)); reflexivity.
    + apply Nat.eqb_neq in Hne; rewrite Hne.
      destruct (Nat.testbit i k), (Nat.odd (count_occ Nat.eq_dec qs k)); reflexivity.
Qed.

Lemma run_X_gates (n : nat) (qs : list nat) :
  Forall (fun q => (q < n)%nat) qs ->
  forall i, (i < 2 ^ n)%nat ->
  Qiskit.run_instructions (map (Qiskit.Gate1 Qiskit.XGate) qs) (basis_state n i) =
  basis_state n (flip_bits qs i).
Proof.
  induction 1 as [| q qs Hq _ IH]; intros i Hi; simpl; [reflexivity |].
  rewrite apply_gate_X_basis_state by assumption.
  apply IH, partner_lt; assumption.
Qed.

Lemma apply_X_placements (n : nat) (qs : list nat) :
  Forall (fun q => (q < n)%nat) qs ->
  forall d,
  apply_gates (map (single "X") qs) {| Qiskit.qc_num_qubits := n; Qiskit.qc_data := d |} =
  Returned {| Qiskit.qc_num_qubits := n;
              Qiskit.qc_data := d ++ map (Qiskit.Gate1 Qiskit.XGate) qs |}.
Proof.
  induction 1 as [| q qs Hq _ IH]; intros d; simpl.
  - rewrite app_nil_r; reflexivity.
  - rewrite (single_placement_explicit n q "X" Qiskit.XGate Hq) by (simpl; tauto).
    simpl; rewrite IH, <- app_assoc; reflexivity.
Qed.

(** X18: qubit [k] is bit [k] of the basis index.  A circuit of X gates
    on the qubits [qs] (all below [n], at least one gate) makes the
    handler return the basis state whose index has bit [k] set exactly
    when qubit [k] was flipped an odd number of times; for one X on
    qubit [q] that is index [2^q]. *)
Theorem execute_X_gates_flip_bits (n : nat) (qs : list nat) :
  Forall (fun q => (q < n)%nat) qs -> qs <> [] ->
  execute_circuit n (map (single "X") qs) = Success (basis_state n (flip_bits qs 0)) /\
  (flip_bits qs 0 < 2 ^ n)%nat /\
  (forall k, Nat.testbit (flip_bits qs 0) k = Nat.odd (count_occ Nat.eq_dec qs k)) /\
  (forall q, flip_bits [q] 0 = (2 ^ q)%nat).
Proof.
  intros Hqs Hne.
  split.
  - rewrite execute_circuit_nonempty by (destruct qs; [contradiction | discriminate]).
    unfold Qiskit.new_circuit; rewrite (apply_X_placements n qs Hqs []).
    unfold Qiskit.get_statevector; simpl.
    rewrite zero_state_is_basis_state.
    f_equal; apply run_X_gates; [exact Hqs | apply pow2_pos].
  - split; [apply flip_bits_lt; [exact Hqs | apply pow2_pos] |].
    split.
    + intros k; rewrite flip_bits_testbit, Nat.bits_0; reflexivity.
    + intros q; unfold flip_bits, Qiskit.partner; simpl; apply Nat.lxor_0_l.
Qed.

Lemma execute_X_gates_flip_bits_witness :
  execute_circuit 3 (map (single "X") [0; 2; 0; 1]%nat) = Success (basis_state 3 6).
Proof.
  apply (proj1 (execute_X_gates_flip_bits 3 [0; 2; 0; 1]%nat
                  ltac:(repeat constructor) ltac:(discriminate))).
Defined.

(** ** CNOT, twice *)

Lemma amp_apply_cx (c t : nat) (v : list C) (j : nat) :
  (j < List.length v)%nat ->
  Qiskit.amp (Qiskit.apply_cx c t v) j =
  if Nat.testbit j c then Qiskit.amp v (Qiskit.partner t j) else Qiskit.amp v j.
Proof.
  intros Hj; unfold Qiskit.amp at 1, Qiskit.apply_cx.
  rewrite nth_map_seq by exact Hj; reflexivity.
Qed.

Lemma apply_cx_involutive (n c t : nat) (v : list C) :
  List.length v = (2 ^ n)%nat -> (t < n)%nat -> c <> t ->
  Qiskit.apply_cx c t (Qiskit.apply_cx c t v) = v.
Proof.
  intros Hlen Ht Hct.
  transitivity (map (Qiskit.amp v) (seq 0 (List.length v))); [| apply map_amp_seq].
  unfold Qiskit.apply_cx at 1; rewrite apply_cx_length.
  apply map_ext_in; intros j Hj; apply in_seq in Hj.
  assert (Hp : (Qiskit.partner t j < List.length v)%nat)
    by (rewrite Hlen; apply partner_lt; [exact Ht | lia]).
  rewrite !amp_apply_cx by (assumption || lia).
  rewrite partner_testbit_other by auto.
  destruct (Nat.testbit j c); [rewrite partner_involutive |]; reflexivity.
Qed.

Lemma cnot_placement (n c t : nat) :
  (c < n)%nat -> (t < n)%nat -> c <> t ->
  forall d,
    apply_placement {| gate_type := "CNOT"; qubit := c; target := Some t |}
                    {| Qiskit.qc_num_qubits := n; Qiskit.qc_data := d |} =
    Returned {| Qiskit.qc_num_qubits := n; Qiskit.qc_data := d ++ [Qiskit.CXGate c t] |}.
Proof.
  intros Hc Ht Hct d; unfold apply_placement, Qiskit.cx; simpl.
  apply Nat.ltb_lt in Hc, Ht; apply Nat.eqb_neq in Hct.
  rewrite Hc, Ht, Hct; reflexivity.
Qed.

(** X19: CNOT is its own inverse.  After a valid circuit that is not
    empty, inserting the same CNOT placement (control [c], target [t],
    both below [n] and distinct) twice changes nothing: the handler's
    outcome is the one without the two placements, whatever follows. *)
Theorem execute_cnot_pair (n : nat) (cd rest : list Placement) (c t : nat) :
  forallb (valid_placement n) cd = true -> cd <> [] ->
  (c < n)%nat -> (t < n)%nat -> c <> t ->
  execute_circuit n
    (cd ++ [ {| gate_type := "CNOT"; qubit := c; target := Some t |};
             {| gate_type := "CNOT"; qubit := c; target := Some t |} ] ++ rest) =
  execute_circuit n (cd ++ rest).
Proof.
  intros Hv Hne Hc Ht Hct.
  pose proof (cnot_placement n c t Hc Ht Hct) as E.
  destruct (execute_split n cd
              [ {| gate_type := "CNOT"; qubit := c; target := Some t |};
                {| gate_type := "CNOT"; qubit := c; target := Some t |} ] rest _ Hv
              ltac:(destruct cd; discriminate) (two_placements n _ _ _ _ E E))
    as (l & El & Hl & ->).
  destruct (execute_split n cd [] rest _ Hv
              ltac:(destruct cd; [contradiction | discriminate]) (no_placement n))
    as (l' & El' & _ & E').
  simpl app in E'; rewrite E'.
  rewrite El in El'; injection El' as <-.
  destruct (apply_gates rest (Qiskit.new_circuit n)); [| reflexivity].
  do 2 f_equal; simpl.
  destruct (run_instructions_invariant n l Hl _ (zero_state_length n)) as [Hlen _].
  apply apply_cx_involutive with (n := n); assumption.
Qed.

Lemma execute_cnot_pair_witness :
  execute_circuit 2
    (x_circuit ++ [ {| gate_type := "CNOT"; qubit := 0; target := Some 1%nat |};
                    {| gate_type := "CNOT"; qubit := 0; target := Some 1%nat |} ] ++ []) =
  execute_circuit 2 (x_circuit ++ []).
Proof.
  apply execute_cnot_pair; try reflexivity; try discriminate; lia.
Defined.

(* ================================================================= *)
(** ** What a returned vector tells *)





(* ================================================================= *)
(** ** The maximum qubit count *)


